(** * RoadRecognition: the lane-detection helpers of
      [RoadRecognition/models/road_recognition.py]

    The class [RoadRecognition] is a bag of class methods without instance
    data.  Its first-party logic is embedded below as functions:

    - the arithmetic of [__average_slope_intercept], [__pixel_points] and
      [__lane_lines] is written once, over an interface [Float64] of the
      float64 operations the source uses, and instantiated twice: with
      Rocq's primitive binary64 floats (the arithmetic Python and NumPy
      really perform, executable) and with exact real numbers extended by
      the IEEE special values (rounding idealised away);
    - exceptions are values of [result];
    - the OpenCV and NumPy routines are external: their pixel sets and
      return values are parameters of the sections that use them. *)

From Stdlib Require Import ZArith List Bool Lia Reals Lra Psatz QArith Qround Qreals.
From Stdlib Require Import Floats.PrimFloat Floats.FloatOps Floats.SpecFloat.
From Stdlib Require Uint63 String.
From Stdlib Require Import Permutation.
Import ListNotations.
Import String.StringSyntax.
Delimit Scope string_scope with string.

#[local] Open Scope Z_scope.

(** ** Exceptions *)

(** The exceptions the modelled code can raise. *)
Inductive exn : Set :=
| TypeError                 (* iterating over [None] *)
| OverflowError             (* [int(inf)] *)
| ValueError                (* [int(nan)] *)
| CameraNotFoundException.  (* raised by [prepare_capture] *)

Inductive result (A : Type) : Type :=
| Ok (a : A)
| Raise (e : exn).
Arguments Ok {A} a.
Arguments Raise {A} e.

Definition bind {A B : Type} (m : result A) (k : A -> result B) : result B :=
  match m with
  | Ok a => k a
  | Raise e => Raise e
  end.

Notation "x <- m ;; k" := (bind m (fun x => k))
  (at level 61, m at next level, right associativity).
Notation "' p <- m ;; k" := (bind m (fun x => let p := x in k))
  (at level 61, p pattern, m at next level, right associativity).

(** ** 32-bit integers

    [cv2.HoughLinesP] returns an array of dtype int32; the scalars taken
    from it are [np.int32] and their [-], [+] and [** 2] wrap around
    (NumPy 2 keeps [np.int32 ** 2] in 32 bits, earlier versions widen it;
    on pixel coordinates, see [in_frame], nothing wraps either way). *)

Definition wrap32 (z : Z) : Z := (z + 2 ^ 31) mod 2 ^ 32 - 2 ^ 31.

Definition i32_sub (a b : Z) : Z := wrap32 (a - b).
Definition i32_add (a b : Z) : Z := wrap32 (a + b).
Definition i32_sq (a : Z) : Z := wrap32 (a * a).

(** ** The float64 interface *)

(** Reference accumulations for [np.sum] and [np.dot]: from the left,
    every addition and multiplication rounded on its own.  NumPy fixes
    neither the order nor the rounding of these reductions ([np.dot] goes
    through BLAS), which is why they are operations of the interface: what
    is proved for every instance holds whatever they do. *)
Definition fold_sum {F : Type} (add : F -> F -> F) (zero : F) (ws : list F) : F :=
  fold_left add ws zero.

Definition fold_dot {F : Type} (add mul : F -> F -> F) (zero : F)
  (ws : list F) (ls : list (F * F)) : F * F :=
  fold_left
    (fun acc wl =>
       let '(w, (a, b)) := wl in
       (add (fst acc) (mul w a), add (snd acc) (mul w b)))
    (combine ws ls) (zero, zero).

Class Float64 (F : Type) : Type := {
  of_int : Z -> F;            (* conversion of an integer operand *)
  fadd : F -> F -> F;
  fsub : F -> F -> F;
  fmul : F -> F -> F;
  fdiv : F -> F -> F;         (* never raises: x/0 is inf or nan *)
  fsqrt : F -> F;             (* [np.sqrt] *)
  flt : F -> F -> bool;       (* [<] *)
  to_int : F -> result Z;     (* [int(x)]: truncation; raises on inf, nan *)
  np_sum : list F -> F;       (* [np.sum] of a vector *)
  np_dot : list F -> list (F * F) -> F * F
                              (* [np.dot] of a vector with an n-by-2 matrix *)
}.

(** A decimal literal [n/d] of the source ([0.6], [0.95], ...) is the
    float nearest to the rational, which is what the correctly rounded
    quotient of the two integers gives. *)
Definition decimal {F} `{Float64 F} (n d : Z) : F := fdiv (of_int n) (of_int d).

(** [np.array(..., dtype=np.int32)] applied to floats: a C cast, which
    truncates and never raises; a value that is not finite or does not
    fit comes out as [INT_MIN]. *)
Definition astype_int32 {F} `{Float64 F} (x : F) : Z :=
  match to_int x with
  | Ok z => if (- 2 ^ 31 <=? z) && (z <? 2 ^ 31) then z else - 2 ^ 31
  | Raise _ => - 2 ^ 31
  end.

(** *** Instance 1: binary64, executable *)

Module B64.

(** Conversion of an integer; the integers of the program (pixel
    coordinates, image sizes) are far below 2^63. *)
Definition of_int (z : Z) : float :=
  match z with
  | Z0 => PrimFloat.zero
  | Zpos _ => PrimFloat.of_uint63 (Uint63.of_Z z)
  | Zneg p => PrimFloat.opp (PrimFloat.of_uint63 (Uint63.of_Z (Zpos p)))
  end.

(** [int(x)] on the decoded float [(-1)^s * m * 2^e]. *)
Definition to_int (x : float) : result Z :=
  match Prim2SF x with
  | S754_zero _ => Ok 0
  | S754_finite s m e =>
      let a := if 0 <=? e then Z.shiftl (Zpos m) e
               else Z.shiftr (Zpos m) (- e) in
      Ok (if s then - a else a)
  | S754_infinity _ => Raise OverflowError
  | S754_nan => Raise ValueError
  end.

End B64.

#[export] Instance binary64 : Float64 float := {|
  of_int := B64.of_int;
  fadd := PrimFloat.add;
  fsub := PrimFloat.sub;
  fmul := PrimFloat.mul;
  fdiv := PrimFloat.div;
  fsqrt := PrimFloat.sqrt;
  flt := PrimFloat.ltb;
  to_int := B64.to_int;
  np_sum := fold_sum PrimFloat.add PrimFloat.zero;
  np_dot := fold_dot PrimFloat.add PrimFloat.mul PrimFloat.zero
|}.

(** *** Instance 2: exact reals with the IEEE special values

    No rounding and no overflow; zero is unsigned (taken as [+0] where a
    sign is needed). *)

Inductive xreal : Type :=
| Fin (r : R)
| Inf (neg : bool)
| NaN.

Module XR.

Definition is_neg (r : R) : bool := if Rlt_dec r 0 then true else false.
Definition is_zero (r : R) : bool := if Req_dec_T r 0 then true else false.

Definition add (x y : xreal) : xreal :=
  match x, y with
  | Fin a, Fin b => Fin (a + b)
  | NaN, _ | _, NaN => NaN
  | Inf s, Fin _ | Fin _, Inf s => Inf s
  | Inf s, Inf t => if Bool.eqb s t then Inf s else NaN
  end.

Definition opp (x : xreal) : xreal :=
  match x with
  | Fin a => Fin (- a)
  | Inf s => Inf (negb s)
  | NaN => NaN
  end.

Definition sub (x y : xreal) : xreal := add x (opp y).

Definition mul (x y : xreal) : xreal :=
  match x, y with
  | Fin a, Fin b => Fin (a * b)
  | NaN, _ | _, NaN => NaN
  | Inf s, Fin a | Fin a, Inf s =>
      if is_zero a then NaN else Inf (xorb s (is_neg a))
  | Inf s, Inf t => Inf (xorb s t)
  end.

Definition div (x y : xreal) : xreal :=
  match x, y with
  | Fin a, Fin b =>
      if is_zero b then (if is_zero a then NaN else Inf (is_neg a))
      else Fin (a / b)
  | NaN, _ | _, NaN => NaN
  | Inf s, Fin b => Inf (xorb s (is_neg b))
  | Fin _, Inf _ => Fin 0
  | Inf _, Inf _ => NaN
  end.

Definition sqrt (x : xreal) : xreal :=
  match x with
  | Fin a => if is_neg a then NaN else Fin (R_sqrt.sqrt a)
  | Inf false => Inf false
  | Inf true => NaN
  | NaN => NaN
  end.

Definition ltb (x y : xreal) : bool :=
  match x, y with
  | Fin a, Fin b => if Rlt_dec a b then true else false
  | NaN, _ | _, NaN => false
  | Inf s, Inf t => s && negb t
  | Inf s, Fin _ => s
  | Fin _, Inf t => negb t
  end.

(** Truncation toward zero, from the floor [Int_part]. *)
Definition trunc (r : R) : Z :=
  if Rle_dec 0 r then Int_part r else (- Int_part (- r))%Z.

Definition to_int (x : xreal) : result Z :=
  match x with
  | Fin a => Ok (trunc a)
  | Inf _ => Raise OverflowError
  | NaN => Raise ValueError
  end.

End XR.

#[export] Instance ideal : Float64 xreal := {|
  of_int := fun z => Fin (IZR z);
  fadd := XR.add;
  fsub := XR.sub;
  fmul := XR.mul;
  fdiv := XR.div;
  fsqrt := XR.sqrt;
  flt := XR.ltb;
  to_int := XR.to_int;
  np_sum := fold_sum XR.add (Fin 0);
  np_dot := fold_dot XR.add XR.mul (Fin 0)
|}.

(** ** The Lane Averager *)

(** A raw segment, one row [x1, y1, x2, y2] of the Hough output. *)
Definition segment : Type := Z * Z * Z * Z.

(** The value of [lines]: [cv2.HoughLinesP] returns an array of shape
    (N, 1, 4), or [None] when it finds nothing. *)
Definition hough_lines : Type := option (list (list segment)).

(** [x1 == x2] *)
Definition vertical (s : segment) : bool :=
  let '(x1, y1, x2, y2) := s in x1 =? x2.

Section LaneAverager.

Context {F : Type} `{Float64 F}.

(** A lane model: the array [(slope, intercept)], or [None]. *)
Definition lane : Type := option (F * F).

(** A lane segment: [((x1, y1), (x2, y2))], or [None]. *)
Definition lane_segment : Type := option ((Z * Z) * (Z * Z)).

Definition slope_of (s : segment) : F :=
  let '(x1, y1, x2, y2) := s in
  fdiv (of_int (i32_sub y2 y1)) (of_int (i32_sub x2 x1)).

Definition intercept_of (s : segment) : F :=
  let '(x1, y1, x2, y2) := s in
  fsub (of_int y1) (fmul (slope_of s) (of_int x1)).

Definition length_of (s : segment) : F :=
  let '(x1, y1, x2, y2) := s in
  fsqrt (of_int (i32_add (i32_sq (i32_sub y2 y1)) (i32_sq (i32_sub x2 x1)))).

(** The four lists the loop appends to. *)
Record accum : Type := mkAccum {
  left_lines : list (F * F);
  left_weights : list F;
  right_lines : list (F * F);
  right_weights : list F
}.

Definition accum0 : accum := mkAccum [] [] [] [].

(** One pass of the body of the inner [for]. *)
Definition visit (st : accum) (s : segment) : accum :=
  let '(x1, y1, x2, y2) := s in
  if x1 =? x2 then st
  else
    let slope := slope_of s in
    let intercept := intercept_of s in
    let length := length_of s in
    if flt slope (of_int 0) then
      mkAccum (left_lines st ++ [(slope, intercept)])
              (left_weights st ++ [length])
              (right_lines st) (right_weights st)
    else
      mkAccum (left_lines st) (left_weights st)
              (right_lines st ++ [(slope, intercept)])
              (right_weights st ++ [length]).

(** The branch a segment takes in [visit]: skipped, appended to the left
    lists, or appended to the right lists. *)
Definition goes_left (s : segment) : bool :=
  negb (vertical s) && flt (slope_of s) (of_int 0).

Definition goes_right (s : segment) : bool :=
  negb (vertical s) && negb (flt (slope_of s) (of_int 0)).

(** The pair a segment appends to [left_lines] or [right_lines]. *)
Definition entry (s : segment) : F * F := (slope_of s, intercept_of s).

(** What a list of segments adds to the four lists. *)
Definition collected (st : accum) (segs : list segment) : accum :=
  mkAccum (left_lines st ++ map entry (filter goes_left segs))
          (left_weights st ++ map length_of (filter goes_left segs))
          (right_lines st ++ map entry (filter goes_right segs))
          (right_weights st ++ map length_of (filter goes_right segs)).

Definition scan (lines : list (list segment)) : accum :=
  fold_left (fun st line => fold_left visit line st) lines accum0.

(** [np.dot(weights, lines) / np.sum(weights)], or [None]. *)
Definition average (ws : list F) (ls : list (F * F)) : lane :=
  if (0 <? length ws)%nat then
    let d := np_dot ws ls in
    let s := np_sum ws in
    Some (fdiv (fst d) s, fdiv (snd d) s)
  else None.

(** The mean of a list of candidates as the code takes it: the dot
    product of their lengths with their (slope, intercept) pairs, divided
    by the sum of their lengths, all in the float arithmetic; absent for
    an empty list. *)
Definition side_mean (cs : list segment) : lane :=
  match cs with
  | [] => None
  | _ =>
      let weights := map length_of cs in
      let d := np_dot weights (map entry cs) in
      let total := np_sum weights in
      Some (fdiv (fst d) total, fdiv (snd d) total)
  end.

Definition average_slope_intercept (lines : hough_lines)
  : result (lane * lane) :=
  match lines with
  | None => Raise TypeError
  | Some ls =>
      let st := scan ls in
      Ok (average (left_weights st) (left_lines st),
          average (right_weights st) (right_lines st))
  end.

Definition pixel_points (y1 y2 : F) (line : lane) : result lane_segment :=
  match line with
  | None => Ok None
  | Some (slope, intercept) =>
      x1 <- to_int (fdiv (fsub y1 intercept) slope) ;;
      x2 <- to_int (fdiv (fsub y2 intercept) slope) ;;
      y1' <- to_int y1 ;;
      y2' <- to_int y2 ;;
      Ok (Some ((x1, y1'), (x2, y2')))
  end.

(** [rows] is [image.shape[0]]. *)
Definition lane_lines (rows : Z) (lines : hough_lines)
  : result (lane_segment * lane_segment) :=
  ' (left_lane, right_lane) <- average_slope_intercept lines ;;
  let y1 := of_int rows in
  let y2 := fmul y1 (decimal 6 10) in
  left_line <- pixel_points y1 y2 left_lane ;;
  right_line <- pixel_points y1 y2 right_lane ;;
  Ok (left_line, right_line).

End LaneAverager.

(** ** Images *)

(** A NumPy image of dtype uint8: [shape] is [(rows, cols)] when
    [channels] is [None] and [(rows, cols, c)] when it is [Some c];
    [pix y x c] is the value at row [y], column [x], channel [c]
    (channel 0 for a 2-D array). *)
Record image : Type := mkImage {
  rows : Z;
  cols : Z;
  channels : option nat;
  pix : Z -> Z -> nat -> Z
}.

(** [len(image.shape)] *)
Definition ndim (img : image) : nat :=
  match channels img with
  | None => 2
  | Some _ => 3
  end.

Definition zeros_like (img : image) : image :=
  mkImage (rows img) (cols img) (channels img) (fun _ _ _ => 0).

(** A colour as OpenCV receives it: the scalar [255] is the sequence
    [[255]]; the components a sequence lacks are 0. *)
Definition color : Type := list Z.

Definition component (c : color) (ch : nat) : Z := nth ch c 0.

(** Painting a set of pixels [(x, y)] of an image with a colour, as
    [cv2.fillPoly] and [cv2.line] do. *)
Definition paint (img : image) (covered : Z -> Z -> bool) (c : color) : image :=
  mkImage (rows img) (cols img) (channels img)
    (fun y x ch => if covered x y then component c ch else pix img y x ch).

(** OpenCV hands a one-channel result back as a 2-D array. *)
Definition squeeze (c : option nat) : option nat :=
  match c with
  | Some 1%nat => None
  | _ => c
  end.

Definition bitwise_and (a b : image) : image :=
  mkImage (rows a) (cols a) (squeeze (channels a))
    (fun y x ch => Z.land (pix a y x ch) (pix b y x ch)).

(** [saturate_cast<uchar>] of a value rounded to the nearest integer,
    ties to even ([cvRound]). *)
Definition round_half_even (q : Q) : Z :=
  let f := Qfloor q in
  match Qcompare (q - inject_Z f) (1 # 2) with
  | Lt => f
  | Gt => f + 1
  | Eq => if Z.even f then f else f + 1
  end.

Definition saturate_u8 (z : Z) : Z := Z.max 0 (Z.min 255 z).

(** [cv2.addWeighted(src1, alpha, src2, beta, gamma)] *)
Definition addWeighted (src1 : image) (alpha : Q) (src2 : image) (beta gamma : Q)
  : image :=
  mkImage (rows src1) (cols src1) (channels src1)
    (fun y x ch =>
       saturate_u8
         (round_half_even
            (inject_Z (pix src1 y x ch) * alpha
             + inject_Z (pix src2 y x ch) * beta + gamma)%Q)).

(** The channel order of the frames: [frame_processor] converts its
    argument with [cv2.COLOR_BGR2GRAY]. *)
Inductive bgr : Set := Blue | Green | Red.

Definition channel_of (c : bgr) : nat :=
  match c with
  | Blue => 0
  | Green => 1
  | Red => 2
  end.

(** ** The Region Selector *)

Section RegionSelector.

Context {F : Type} `{Float64 F}.

(** The pixels [(x, y)] that [cv2.fillPoly] paints for the polygons it
    is given. *)
Variable poly_pixels : list (list (Z * Z)) -> Z -> Z -> bool.

Definition fillPoly (mask : image) (pts : list (list (Z * Z))) (c : color)
  : image :=
  paint mask (poly_pixels pts) c.

(** [np.array([[bottom_left, top_left, top_right, bottom_right]],
    dtype=np.int32)] *)
Definition vertices (nrows ncols : Z) : list (list (Z * Z)) :=
  let r := of_int nrows in
  let c := of_int ncols in
  let bottom_left := (fmul c (decimal 1 10), fmul r (decimal 95 100)) in
  let top_left := (fmul c (decimal 4 10), fmul r (decimal 6 10)) in
  let bottom_right := (fmul c (decimal 9 10), fmul r (decimal 95 100)) in
  let top_right := (fmul c (decimal 6 10), fmul r (decimal 6 10)) in
  [map (fun p => (astype_int32 (fst p), astype_int32 (snd p)))
       [bottom_left; top_left; top_right; bottom_right]].

Definition ignore_mask_color (img : image) : color :=
  match channels img with
  | Some channel_count => repeat 255 channel_count
  | None => [255]
  end.

Definition region_selection (img : image) : image :=
  let mask := zeros_like img in
  let mask := fillPoly mask (vertices (rows img) (cols img))
                (ignore_mask_color img) in
  bitwise_and img mask.

End RegionSelector.

(** ** The Line Renderer *)

Section LineRenderer.

(** The pixels [(x, y)] that [cv2.line] paints for a segment from [pt1]
    to [pt2] of the given thickness. *)
Variable stroke_pixels : Z * Z -> Z * Z -> Z -> Z -> Z -> bool.

Definition cv2_line (img : image) (pt1 pt2 : Z * Z) (c : color) (thickness : Z)
  : image :=
  paint img (stroke_pixels pt1 pt2 thickness) c.

(** The defaults of the signature: [color=None, thickness=12]. *)
Definition default_thickness : Z := 12.

Definition draw_lane_lines (img : image)
  (lines : lane_segment * lane_segment)
  (c : option color) (thickness : Z) : image :=
  let c := match c with
           | None => [255; 0; 0]
           | Some c => c
           end in
  let line_image := zeros_like img in
  let line_image :=
    fold_left
      (fun line_image line =>
         match line with
         | Some (pt1, pt2) => cv2_line line_image pt1 pt2 c thickness
         | None => line_image
         end)
      [fst lines; snd lines] line_image in
  addWeighted img 1 line_image 1 0.

(** The overlay after the loop of [__draw_lane_lines]: a pixel has the
    component of the colour if a present segment's stroke covers it, and
    is 0 otherwise. *)
Definition covered (lines : lane_segment * lane_segment) (thickness x y : Z) : bool :=
  match fst lines, snd lines with
  | None, None => false
  | Some (p, q), None | None, Some (p, q) => stroke_pixels p q thickness x y
  | Some (p, q), Some (p', q') =>
      stroke_pixels p q thickness x y || stroke_pixels p' q' thickness x y
  end.

End LineRenderer.

(** ** The pipeline *)

(** The arguments [frame_processor] and [__hough_transform] fix. *)
Record hough_args : Type := mkHoughArgs {
  rho : Z;
  theta_pi_over : Z;          (* [theta = np.pi / 180] *)
  threshold : Z;
  min_line_length : Z;
  max_line_gap : Z
}.

Section Pipeline.

Context {F : Type} `{Float64 F}.

(** OpenCV's routines. *)
Variable cvtColor_BGR2GRAY : image -> image.
Variable GaussianBlur : image -> Z * Z -> Z -> image.
Variable Canny : image -> Z -> Z -> image.
Variable HoughLinesP : image -> hough_args -> hough_lines.
Variable poly_pixels : list (list (Z * Z)) -> Z -> Z -> bool.
Variable stroke_pixels : Z * Z -> Z * Z -> Z -> Z -> Z -> bool.

Definition hough_transform (img : image) : hough_lines :=
  HoughLinesP img (mkHoughArgs 1 180 20 20 500).

Definition frame_processor (img : image) : result image :=
  let grayscale := cvtColor_BGR2GRAY img in
  let kernel_size := 5 in
  let blur := GaussianBlur grayscale (kernel_size, kernel_size) 0 in
  let low_t := 50 in
  let high_t := 150 in
  let edges := Canny blur low_t high_t in
  let region := region_selection (F:=F) poly_pixels edges in
  let hough := hough_transform region in
  lines <- lane_lines (F:=F) (rows img) hough ;;
  Ok (draw_lane_lines stroke_pixels img lines None default_thickness).

(** The Hough output [frame_processor] works on: the transform of the
    masked edge map of the frame. *)
Definition detected (img : image) : hough_lines :=
  hough_transform
    (region_selection (F:=F) poly_pixels
       (Canny (GaussianBlur (cvtColor_BGR2GRAY img) (5, 5) 0) 50 150)).

End Pipeline.

(** [recognite] *)
Definition recognite (frame : image) : image := frame.

(** ** The capture guard *)

(** What the camera layer is asked to do, in order. *)
Inductive device_op : Set :=
| OpOpen (camera_index : Z)      (* [Capture(camera_index)] *)
| OpIsOpened (camera_index : Z)  (* [isOpened()] *)
| OpRead (camera_index : Z).     (* [read()] *)

(** A [Capture] object: the device it was built for and whether the
    device opened. *)
Record capture : Set := mkCapture {
  device : Z;
  opened : bool
}.

Section CaptureGuard.

(** Which device indices open. *)
Variable available : Z -> bool.

(** Computations on the camera layer: the log of operations is threaded
    through, an exception ends the computation. *)
Definition cam (A : Type) : Type := list device_op -> result A * list device_op.

Definition cam_ret {A} (a : A) : cam A := fun log => (Ok a, log).

Definition cam_raise {A} (e : exn) : cam A := fun log => (Raise e, log).

Definition cam_bind {A B} (m : cam A) (k : A -> cam B) : cam B :=
  fun log =>
    match m log with
    | (Ok a, log') => k a log'
    | (Raise e, log') => (Raise e, log')
    end.

Definition Capture (camera_index : Z) : cam capture :=
  fun log => (Ok (mkCapture camera_index (available camera_index)),
              log ++ [OpOpen camera_index]).

Definition isOpened (c : capture) : cam bool :=
  fun log => (Ok (opened c), log ++ [OpIsOpened (device c)]).

Definition prepare_capture (camera_index : Z) : cam capture :=
  cam_bind (Capture camera_index) (fun camera_capture =>
  cam_bind (isOpened camera_capture) (fun is_opened =>
  if negb is_opened then cam_raise CameraNotFoundException
  else cam_ret camera_capture)).

End CaptureGuard.

(** ** The contracts, in the words of the specification *)

Module Spec.

#[local] Open Scope R_scope.

Definition slope (s : segment) : R :=
  let '(x1, y1, x2, y2) := s in
  IZR (y2 - y1) / IZR (x2 - x1).

Definition intercept (s : segment) : R :=
  let '(x1, y1, x2, y2) := s in
  IZR y1 - slope s * IZR x1.

(** The Euclidean length. *)
Definition length (s : segment) : R :=
  let '(x1, y1, x2, y2) := s in
  R_sqrt.sqrt (IZR (y2 - y1) ^ 2 + IZR (x2 - x1) ^ 2).

Definition left_candidate (s : segment) : bool :=
  negb (vertical s) && (if Rlt_dec (slope s) 0 then true else false).

Definition right_candidate (s : segment) : bool :=
  negb (vertical s) && (if Rge_dec (slope s) 0 then true else false).

Definition sum (l : list R) : R := fold_right Rplus 0 l.

(** [sum (length_i * (slope_i, intercept_i)) / sum length_i], absent for
    an empty side. *)
Definition weighted_mean (cs : list segment) : option (R * R) :=
  match cs with
  | [] => None
  | _ =>
      let total := sum (map length cs) in
      Some (sum (map (fun s => length s * slope s) cs) / total,
            sum (map (fun s => length s * intercept s) cs) / total)
  end.

(** The trapezoid of the Region Selector:
    [(0.1W, 0.95H), (0.4W, 0.6H), (0.6W, 0.6H), (0.9W, 0.95H)]. *)
Definition trapezoid (h w : Z) : list (Q * Q) :=
  [ ((1 # 10) * inject_Z w, (95 # 100) * inject_Z h);
    ((4 # 10) * inject_Z w, (6 # 10) * inject_Z h);
    ((6 # 10) * inject_Z w, (6 # 10) * inject_Z h);
    ((9 # 10) * inject_Z w, (95 # 100) * inject_Z h) ]%Q.

End Spec.

(** A lane model of the contract as a value of the exact instance. *)
Definition exact_lane (m : option (R * R)) : lane (F:=xreal) :=
  match m with
  | Some (a, b) => Some (Fin a, Fin b)
  | None => None
  end.

(** Pixel coordinates of an image less than 2^15 pixels wide and high. *)
Definition in_frame (s : segment) : Prop :=
  let '(x1, y1, x2, y2) := s in
  (0 <= x1 < 2 ^ 15 /\ 0 <= y1 < 2 ^ 15) /\ (0 <= x2 < 2 ^ 15 /\ 0 <= y2 < 2 ^ 15).


(** ** The number a float stands for

    [int(x)] in the words of the Python reference: the integer part of
    the number [x] stands for, "truncating towards zero", OverflowError
    on an infinity and ValueError on a NaN. *)

Inductive fval : Type :=
| Finite (q : Q)
| Infinite
| NotANumber.

(** The rational [(-1)^s * m * 2^e] of a finite binary64 number. *)
Definition float_value (x : float) : fval :=
  match Prim2SF x with
  | S754_zero _ => Finite 0
  | S754_finite s m e =>
      let magnitude :=
        if 0 <=? e then inject_Z (Zpos m * 2 ^ e)
        else Zpos m # Z.to_pos (2 ^ (- e)) in
      Finite (if s then (- magnitude)%Q else magnitude)
  | S754_infinity _ => Infinite
  | S754_nan => NotANumber
  end.

Definition Qtruncate (q : Q) : Z :=
  if Qle_bool 0 q then Qfloor q else (- Qfloor (- q))%Z.

Definition int_of_value (v : fval) : result Z :=
  match v with
  | Finite q => Ok (Qtruncate q)
  | Infinite => Raise OverflowError
  | NotANumber => Raise ValueError
  end.

(** [x = (y - intercept) / slope], the difference and the quotient taken
    exactly on the numbers the floats stand for, then truncated: the
    conversion of the specification read in exact arithmetic. *)
Definition exact_abscissa (y : Z) (slope intercept : float) : option Z :=
  match float_value slope, float_value intercept with
  | Finite s, Finite b =>
      if Qeq_bool s 0 then None
      else Some (Qtruncate ((inject_Z y - b) / s))
  | _, _ => None
  end.

(** A float stands for a real number; a lane model of floats is a lane
    model of the contract. *)
Definition stands_for (x : float) (r : R) : Prop :=
  match float_value x with
  | Finite q => Q2R q = r
  | _ => False
  end.

Definition lane_stands_for (l : lane (F:=float)) (m : option (R * R)) : Prop :=
  match l, m with
  | None, None => True
  | Some (a, b), Some (slope, intercept) => stands_for a slope /\ stands_for b intercept
  | _, _ => False
  end.

(** The Lane Averager, as it runs in binary64, returns the weighted
    means of the contract. *)
Definition returns_weighted_mean (lines : list (list segment)) : Prop :=
  exists left_lane right_lane,
    average_slope_intercept (F:=float) (Some lines) = Ok (left_lane, right_lane) /\
    lane_stands_for left_lane
      (Spec.weighted_mean (filter Spec.left_candidate (concat lines))) /\
    lane_stands_for right_lane
      (Spec.weighted_mean (filter Spec.right_candidate (concat lines))).

(** ** [execute_frame] *)

(** The values [execute_frame] can return: it has [return False] on one
    path and falls off its end, returning [None], on the other. *)
Inductive pyval : Set :=
| PyNone
| PyBool (b : bool).

(** The truth value Python gives to it in a condition. *)
Definition truthy (v : pyval) : bool :=
  match v with
  | PyNone => false
  | PyBool b => b
  end.

(** Computations on the display: the windows shown so far, in order, are
    threaded through. *)
Definition shown : Type := list (String.string * image).

Definition imshow (winname : String.string) (mat : image) (log : shown) : shown :=
  log ++ [(winname, mat)].

Definition execute_frame (success : bool) (frame : image) (log : shown)
  : pyval * shown :=
  if negb success then (PyBool false, log)
  else (PyNone, imshow "Video"%string frame log).

(** ** Notions used to state properties of the Lane Averager *)

(** [y1 == y2] *)
Definition horizontal (s : segment) : bool :=
  let '(x1, y1, x2, y2) := s in y1 =? y2.

(** The sign of [(y2 - y1) * (x2 - x1)], an integer. *)
Definition rise_run (s : segment) : Z :=
  let '(x1, y1, x2, y2) := s in (y2 - y1) * (x2 - x1).

(** Some segment is horizontal and not a point; some segment rises to
    the right (in image coordinates, where y grows downwards). *)
Definition has_horizontal (segs : list segment) : bool :=
  existsb (fun s => negb (vertical s) && horizontal s) segs.

Definition has_rising (segs : list segment) : bool :=
  existsb (fun s => negb (vertical s) && (0 <? rise_run s)) segs.

(** The trapezoid with its coordinates truncated to integers, in the
    order bottom-left, top-left, top-right, bottom-right. *)
Definition truncated_trapezoid (h w : Z) : list (Z * Z) :=
  [ (w * 1 / 10, h * 95 / 100);
    (w * 4 / 10, h * 6 / 10);
    (w * 6 / 10, h * 6 / 10);
    (w * 9 / 10, h * 95 / 100) ].

(** An integer point is a given rational point. *)
Definition same_point (p : Z * Z) (q : Q * Q) : bool :=
  Qeq_bool (inject_Z (fst p)) (fst q) && Qeq_bool (inject_Z (snd p)) (snd q).

Fixpoint same_points (ps : list (Z * Z)) (qs : list (Q * Q)) : bool :=
  match ps, qs with
  | [], [] => true
  | p :: ps, q :: qs => same_point p q && same_points ps qs
  | _, _ => false
  end.

(** The polygon handed to [cv2.fillPoly] for an edge map of [h] rows and
    [w] columns is the trapezoid of the specification. *)
Definition fills_trapezoid {F} `{Float64 F} (h w : Z) : Prop :=
  match vertices h w with
  | [polygon] => same_points polygon (Spec.trapezoid h w) = true
  | _ => False
  end.

(** The polygon computed in binary64 is the truncated trapezoid. *)
Definition binary64_agrees (n : Z) : bool :=
  match vertices (F:=float) n n with
  | [polygon] =>
      forallb (fun pq => (fst (fst pq) =? fst (snd pq)) && (snd (fst pq) =? snd (snd pq)))
              (combine polygon (truncated_trapezoid n n))
      && (length polygon =? 4)%nat
  | _ => false
  end.

(** A point [(x, y)] is inside a convex polygon, its boundary included:
    it lies on the same side of every edge. *)
Definition cross (a b p : Z * Z) : Z :=
  (fst b - fst a) * (snd p - snd a) - (snd b - snd a) * (fst p - fst a).

Definition edges (polygon : list (Z * Z)) : list ((Z * Z) * (Z * Z)) :=
  match polygon with
  | [] => []
  | v :: rest => combine polygon (rest ++ [v])
  end.

Definition inside_convex (polygon : list (Z * Z)) (x y : Z) : bool :=
  forallb (fun e => 0 <=? cross (fst e) (snd e) (x, y)) (edges polygon)
  || forallb (fun e => cross (fst e) (snd e) (x, y) <=? 0) (edges polygon).

(** The shapes the Region Selector returns unchanged: a 2-D array, or 2
    to 4 channels (a third dimension of 1 is dropped by
    [cv2.bitwise_and], more than 4 channels are refused by
    [cv2.fillPoly]). *)
Definition supported_channels (img : image) : Prop :=
  match channels img with
  | None => True
  | Some channel_count => (2 <= channel_count <= 4)%nat
  end.

(** What [cv2.line] accepts: coordinates that fit a C int, a thickness
    between 1 and 32767, a colour of at most four components, which it
    saturates to 0..255. *)
Definition c_int (z : Z) : Prop := - 2 ^ 31 <= z < 2 ^ 31.

Definition drawable (line : lane_segment) : Prop :=
  match line with
  | None => True
  | Some ((x1, y1), (x2, y2)) => (c_int x1 /\ c_int y1) /\ (c_int x2 /\ c_int y2)
  end.

Definition uint8_color (c : color) : Prop :=
  (length c <= 4)%nat /\ Forall (fun v => 0 <= v <= 255) c.

(** The channel [ch] exists in the image. *)
Definition has_channel (img : image) (ch : nat) : Prop :=
  match channels img with
  | None => ch = 0%nat
  | Some channel_count => (ch < channel_count)%nat
  end.

(** * Properties *)

(** ** The result monad *)

Lemma bind_Ok {A B} (a : A) (k : A -> result B) : bind (Ok a) k = k a.
Proof. reflexivity. Qed.

Lemma bind_Raise {A B} (e : exn) (k : A -> result B) : bind (Raise e) k = Raise e.
Proof. reflexivity. Qed.

(** ** int32 *)

Lemma wrap32_small z : - 2 ^ 31 <= z < 2 ^ 31 -> wrap32 z = z.
Proof.
  intros Hz. unfold wrap32.
  rewrite Z.mod_small by lia. lia.
Qed.

Lemma in_frame_diffs x1 y1 x2 y2 :
  in_frame (x1, y1, x2, y2) ->
  i32_sub y2 y1 = y2 - y1 /\ i32_sub x2 x1 = x2 - x1 /\
  i32_add (i32_sq (i32_sub y2 y1)) (i32_sq (i32_sub x2 x1))
  = (y2 - y1) * (y2 - y1) + (x2 - x1) * (x2 - x1).
Proof.
  unfold in_frame. intros [[Hx1 Hy1] [Hx2 Hy2]].
  assert (Hdy : i32_sub y2 y1 = y2 - y1) by (apply wrap32_small; lia).
  assert (Hdx : i32_sub x2 x1 = x2 - x1) by (apply wrap32_small; lia).
  rewrite Hdy, Hdx. repeat split.
  unfold i32_add, i32_sq.
  assert (Hsq : forall d, - 2 ^ 15 < d < 2 ^ 15 -> 0 <= d * d < 2 ^ 30) by (intros; nia).
  pose proof (Hsq (y2 - y1) ltac:(lia)) as Hy.
  pose proof (Hsq (x2 - x1) ltac:(lia)) as Hx.
  rewrite (wrap32_small ((y2 - y1) * (y2 - y1))) by lia.
  rewrite (wrap32_small ((x2 - x1) * (x2 - x1))) by lia.
  apply wrap32_small. lia.
Qed.

(** ** Truncation in binary64 *)

Lemma Qfloor_make (n : Z) (d : positive) : Qfloor (n # d) = n / Zpos d.
Proof. reflexivity. Qed.

Lemma to_pos_pow2 k : 0 <= k -> Zpos (Z.to_pos (2 ^ k)) = 2 ^ k.
Proof. intros Hk. apply Z2Pos.id. apply Z.pow_pos_nonneg; lia. Qed.

(** [int] of a binary64 number is the truncation of the number it
    stands for. *)
Lemma b64_to_int_value (x : float) :
  to_int (F:=float) x = int_of_value (float_value x).
Proof.
  cbn [to_int binary64]. unfold B64.to_int, float_value.
  destruct (Prim2SF x) as [s | s | | s m e]; try reflexivity.
  cbn [int_of_value]. f_equal.
  destruct (Z.leb_spec 0 e) as [He | He].
  - rewrite Z.shiftl_mul_pow2 by exact He.
    assert (Hpos : 0 < Zpos m * 2 ^ e) by (apply Z.mul_pos_pos; [lia | apply Z.pow_pos_nonneg; lia]).
    destruct s; unfold Qtruncate, Qle_bool, inject_Z, Qopp; cbn [Qnum Qden].
    + replace (0 * 1 <=? - (Zpos m * 2 ^ e) * 1) with false
        by (symmetry; apply Z.leb_gt; lia).
      rewrite Qfloor_make, Z.opp_involutive, Z.div_1_r. reflexivity.
    + replace (0 * 1 <=? Zpos m * 2 ^ e * 1) with true
        by (symmetry; apply Z.leb_le; lia).
      rewrite Qfloor_make, Z.div_1_r. reflexivity.
  - rewrite Z.shiftr_div_pow2 by lia.
    destruct s; unfold Qtruncate, Qle_bool, Qopp; cbn [Qnum Qden].
    + replace (0 * Zpos (Z.to_pos (2 ^ (- e))) <=? - Zpos m * 1) with false
        by (symmetry; apply Z.leb_gt; lia).
      rewrite Qfloor_make, Z.opp_involutive, to_pos_pow2 by lia. reflexivity.
    + replace (0 * Zpos (Z.to_pos (2 ^ (- e))) <=? Zpos m * 1) with true
        by (symmetry; apply Z.leb_le; lia).
      rewrite Qfloor_make, to_pos_pow2 by lia. reflexivity.
Qed.

(** ** The loop of the Lane Averager, for every arithmetic *)

Section LaneAveragerFacts.

Context {F : Type} `{Float64 F}.

Lemma visit_vertical st s : vertical s = true -> visit st s = st.
Proof.
  destruct s as [[[x1 y1] x2] y2]. unfold vertical, visit.
  intros ->. reflexivity.
Qed.

Lemma visit_left st s :
  goes_left s = true ->
  visit st s = mkAccum (left_lines st ++ [entry s]) (left_weights st ++ [length_of s])
                       (right_lines st) (right_weights st).
Proof.
  destruct s as [[[x1 y1] x2] y2]. unfold goes_left, vertical, visit.
  intros Hl. apply andb_true_iff in Hl as [Hv Hs].
  apply negb_true_iff in Hv. rewrite Hv, Hs. reflexivity.
Qed.

Lemma visit_right st s :
  goes_right s = true ->
  visit st s = mkAccum (left_lines st) (left_weights st)
                       (right_lines st ++ [entry s]) (right_weights st ++ [length_of s]).
Proof.
  destruct s as [[[x1 y1] x2] y2]. unfold goes_right, vertical, visit.
  intros Hr. apply andb_true_iff in Hr as [Hv Hs].
  apply negb_true_iff in Hv. apply negb_true_iff in Hs.
  rewrite Hv, Hs. reflexivity.
Qed.

(** Every segment takes exactly one of the three branches. *)
Lemma branch_cases s :
  (vertical s = true /\ goes_left s = false /\ goes_right s = false) \/
  (vertical s = false /\ goes_left s = true /\ goes_right s = false) \/
  (vertical s = false /\ goes_left s = false /\ goes_right s = true).
Proof.
  unfold goes_left, goes_right.
  destruct (vertical s), (flt (slope_of s) (of_int 0)); simpl; auto.
Qed.

Lemma fold_visit line : forall st, fold_left visit line st = collected st line.
Proof.
  induction line as [|s line IH]; intros st; simpl.
  - unfold collected. simpl. rewrite !app_nil_r. destruct st; reflexivity.
  - rewrite IH.
    destruct (branch_cases s) as [(Hv & Hl & Hr) | [(Hv & Hl & Hr) | (Hv & Hl & Hr)]].
    + rewrite (visit_vertical _ _ Hv). unfold collected. simpl. rewrite Hl, Hr. reflexivity.
    + rewrite (visit_left _ _ Hl). unfold collected. simpl. rewrite Hl, Hr. simpl.
      rewrite <- !app_assoc. reflexivity.
    + rewrite (visit_right _ _ Hr). unfold collected. simpl. rewrite Hl, Hr. simpl.
      rewrite <- !app_assoc. reflexivity.
Qed.

Lemma collected_app st l1 l2 : collected (collected st l1) l2 = collected st (l1 ++ l2).
Proof.
  unfold collected. simpl.
  rewrite !filter_app, !map_app, !app_assoc. reflexivity.
Qed.

Lemma fold_lines lines :
  forall st,
    fold_left (fun st line => fold_left visit line st) lines st
    = collected st (concat lines).
Proof.
  induction lines as [|line lines IH]; intros st; simpl.
  - unfold collected. simpl. rewrite !app_nil_r. destruct st; reflexivity.
  - rewrite IH, fold_visit, collected_app. reflexivity.
Qed.

Lemma scan_collected lines : scan lines = collected accum0 (concat lines).
Proof. unfold scan. apply fold_lines. Qed.

Lemma average_slope_intercept_filter lines :
  average_slope_intercept (Some lines)
  = Ok (average (map length_of (filter goes_left (concat lines)))
                (map entry (filter goes_left (concat lines))),
        average (map length_of (filter goes_right (concat lines)))
                (map entry (filter goes_right (concat lines)))).
Proof.
  unfold average_slope_intercept. rewrite scan_collected. reflexivity.
Qed.

End LaneAveragerFacts.

(** ** The exact-arithmetic instance *)

Lemma is_zero_false r : r <> 0%R -> XR.is_zero r = false.
Proof. intros Hr. unfold XR.is_zero. destruct (Req_dec_T r 0); [contradiction | reflexivity]. Qed.

Lemma is_zero_true : XR.is_zero 0 = true.
Proof. unfold XR.is_zero. destruct (Req_dec_T 0 0); [reflexivity | contradiction]. Qed.

Lemma is_neg_false r : (0 <= r)%R -> XR.is_neg r = false.
Proof. intros Hr. unfold XR.is_neg. destruct (Rlt_dec r 0); [lra | reflexivity]. Qed.

Lemma div_Fin a b : b <> 0%R -> XR.div (Fin a) (Fin b) = Fin (a / b).
Proof. intros Hb. unfold XR.div. rewrite (is_zero_false b Hb). reflexivity. Qed.

Lemma trunc_spec_nonneg r z :
  (IZR z <= r < IZR z + 1)%R -> 0 <= z -> XR.trunc r = z.
Proof.
  intros [Hlo Hhi] Hz. unfold XR.trunc.
  assert (0 <= IZR z)%R by (apply IZR_le; exact Hz).
  destruct (Rle_dec 0 r) as [_ | Hn]; [| lra].
  symmetry. apply Int_part_spec. lra.
Qed.

Lemma trunc_spec_nonpos r z :
  (IZR z - 1 < r <= IZR z)%R -> z <= 0 -> XR.trunc r = z.
Proof.
  intros [Hlo Hhi] Hz. unfold XR.trunc.
  assert (IZR z <= 0)%R by (apply IZR_le; exact Hz).
  destruct (Rle_dec 0 r) as [Hp | Hn].
  - assert (r = 0%R) by lra. assert (IZR z = 0%R) by lra.
    subst r. symmetry. apply Int_part_spec. lra.
  - assert (Hneg : (- z)%Z = Int_part (- r)).
    { apply Int_part_spec. rewrite opp_IZR. lra. }
    rewrite <- Hneg. lia.
Qed.

Lemma trunc_IZR z : XR.trunc (IZR z) = z.
Proof.
  destruct (Z_le_gt_dec 0 z).
  - apply trunc_spec_nonneg; [lra | lia].
  - apply trunc_spec_nonpos; [lra | lia].
Qed.

(** Truncating an exact quotient of non-negative integers is the
    integer quotient. *)
Lemma trunc_quot n d :
  0 <= n -> 0 < d -> XR.trunc (IZR n / IZR d) = n / d.
Proof.
  intros Hn Hd.
  assert (HdR : (0 < IZR d)%R) by (apply IZR_lt; exact Hd).
  pose proof (Z.div_pos n d Hn Hd) as Hq.
  pose proof (Z.mul_div_le n d Hd) as Hlo.
  pose proof (Z.mul_succ_div_gt n d Hd) as Hhi.
  apply trunc_spec_nonneg; [| exact Hq].
  split.
  - apply (Rmult_le_reg_r (IZR d)); [exact HdR |].
    unfold Rdiv. rewrite Rmult_assoc, Rinv_l, Rmult_1_r by lra.
    rewrite <- mult_IZR. apply IZR_le. lia.
  - apply (Rmult_lt_reg_r (IZR d)); [exact HdR |].
    unfold Rdiv. rewrite Rmult_assoc, Rinv_l, Rmult_1_r by lra.
    replace ((IZR (n / d) + 1) * IZR d)%R with (IZR ((n / d + 1) * d))
      by (rewrite mult_IZR, plus_IZR; reflexivity).
    apply IZR_lt. lia.
Qed.

Lemma ideal_slope_of s :
  in_frame s -> vertical s = false -> slope_of (F:=xreal) s = Fin (Spec.slope s).
Proof.
  destruct s as [[[x1 y1] x2] y2]. intros Hf Hv.
  destruct (in_frame_diffs _ _ _ _ Hf) as (Hdy & Hdx & _).
  unfold slope_of, Spec.slope. rewrite Hdy, Hdx. simpl.
  apply div_Fin. apply not_0_IZR.
  unfold vertical in Hv. apply Z.eqb_neq in Hv. lia.
Qed.

Lemma ideal_intercept_of s :
  in_frame s -> vertical s = false -> intercept_of (F:=xreal) s = Fin (Spec.intercept s).
Proof.
  intros Hf Hv. pose proof (ideal_slope_of s Hf Hv) as Hs.
  destruct s as [[[x1 y1] x2] y2].
  unfold intercept_of, Spec.intercept. rewrite Hs. simpl.
  f_equal.
Qed.

Lemma ideal_length_of s :
  in_frame s -> length_of (F:=xreal) s = Fin (Spec.length s).
Proof.
  destruct s as [[[x1 y1] x2] y2]. intros Hf.
  destruct (in_frame_diffs _ _ _ _ Hf) as (_ & _ & Hsq).
  unfold length_of, Spec.length. rewrite Hsq. simpl.
  pose proof (Z.square_nonneg (y2 - y1)) as Hy.
  pose proof (Z.square_nonneg (x2 - x1)) as Hx.
  rewrite is_neg_false by (apply IZR_le; lia).
  do 2 f_equal. rewrite plus_IZR, !mult_IZR. ring.
Qed.

Lemma length_pos s : vertical s = false -> (0 < Spec.length s)%R.
Proof.
  destruct s as [[[x1 y1] x2] y2]. unfold vertical, Spec.length. intros Hv.
  apply Z.eqb_neq in Hv. apply sqrt_lt_R0.
  assert (IZR (x2 - x1) <> 0%R) by (apply not_0_IZR; lia).
  nra.
Qed.

Lemma ideal_goes_left s :
  in_frame s -> goes_left (F:=xreal) s = Spec.left_candidate s.
Proof.
  intros Hf. unfold goes_left, Spec.left_candidate.
  destruct (vertical s) eqn:Hv; [reflexivity |].
  rewrite (ideal_slope_of s Hf Hv). reflexivity.
Qed.

Lemma ideal_goes_right s :
  in_frame s -> goes_right (F:=xreal) s = Spec.right_candidate s.
Proof.
  intros Hf. unfold goes_right, Spec.right_candidate.
  destruct (vertical s) eqn:Hv; [reflexivity |].
  rewrite (ideal_slope_of s Hf Hv). simpl.
  destruct (Rlt_dec (Spec.slope s) 0), (Rge_dec (Spec.slope s) 0);
    simpl; try reflexivity; lra.
Qed.

Lemma ideal_fold_add rs : forall a, fold_left XR.add (map Fin rs) (Fin a) = Fin (a + Spec.sum rs).
Proof.
  induction rs as [|r rs IH]; intros a; simpl.
  - f_equal. lra.
  - rewrite IH. f_equal. lra.
Qed.

Lemma ideal_np_sum rs : np_sum (F:=xreal) (map Fin rs) = Fin (Spec.sum rs).
Proof.
  cbn [np_sum ideal]. unfold fold_sum. rewrite ideal_fold_add. f_equal. lra.
Qed.

Lemma ideal_np_dot (w f g : segment -> R) cs :
  np_dot (F:=xreal) (map (fun s => Fin (w s)) cs) (map (fun s => (Fin (f s), Fin (g s))) cs)
  = (Fin (Spec.sum (map (fun s => w s * f s) cs)),
     Fin (Spec.sum (map (fun s => w s * g s) cs)))%R.
Proof.
  cbn [np_dot ideal]. unfold fold_dot.
  assert (Hgen : forall a b,
    fold_left
      (fun (acc : xreal * xreal) (wl : xreal * (xreal * xreal)) =>
         let '(w0, (a0, b0)) := wl in
         (XR.add (fst acc) (XR.mul w0 a0), XR.add (snd acc) (XR.mul w0 b0)))
      (combine (map (fun s => Fin (w s)) cs)
               (map (fun s => (Fin (f s), Fin (g s))) cs))
      (Fin a, Fin b)
    = (Fin (a + Spec.sum (map (fun s => w s * f s) cs)),
       Fin (b + Spec.sum (map (fun s => w s * g s) cs)))%R).
  { induction cs as [|c cs IH]; intros a b; simpl.
    - f_equal; f_equal; lra.
    - rewrite IH. f_equal; f_equal; lra. }
  rewrite Hgen. f_equal; f_equal; lra.
Qed.

Lemma sum_lengths_pos cs :
  cs <> [] -> Forall (fun s => vertical s = false) cs ->
  (0 < Spec.sum (map Spec.length cs))%R.
Proof.
  intros Hne Hall. destruct cs as [|c cs]; [contradiction |].
  clear Hne. revert c Hall.
  induction cs as [|d cs IH]; intros c Hall; simpl.
  - inversion Hall; subst. pose proof (length_pos c H1). lra.
  - inversion Hall; subst. pose proof (length_pos c H1).
    specialize (IH d H2). simpl in IH. lra.
Qed.

(** The code's average of a list of in-frame, non-vertical segments is
    the weighted mean of the contract. *)
Lemma ideal_average cs :
  Forall in_frame cs -> Forall (fun s => vertical s = false) cs ->
  average (F:=xreal) (map length_of cs) (map entry cs)
  = exact_lane (Spec.weighted_mean cs).
Proof.
  intros Hf Hv.
  assert (Hw : map (length_of (F:=xreal)) cs = map (fun s => Fin (Spec.length s)) cs).
  { apply map_ext_in. intros s Hs. rewrite Forall_forall in Hf.
    apply ideal_length_of. auto. }
  assert (He : map (entry (F:=xreal)) cs
               = map (fun s => (Fin (Spec.slope s), Fin (Spec.intercept s))) cs).
  { apply map_ext_in. intros s Hs. rewrite Forall_forall in Hf, Hv.
    unfold entry. rewrite ideal_slope_of, ideal_intercept_of by auto. reflexivity. }
  unfold average. rewrite Hw, He, ideal_np_dot.
  rewrite <- (map_map Spec.length Fin), ideal_np_sum, length_map.
  destruct cs as [|c cs]; [reflexivity |].
  assert (Hpos : (0 < Spec.sum (map Spec.length (c :: cs)))%R)
    by (apply sum_lengths_pos; [discriminate | exact Hv]).
  cbn [length Nat.ltb Nat.leb fst snd].
  cbn [fdiv ideal].
  rewrite !div_Fin by lra.
  reflexivity.
Qed.

Lemma filter_nonvertical_left (segs : list segment) :
  Forall (fun s => vertical s = false) (filter Spec.left_candidate segs).
Proof.
  apply Forall_forall. intros s Hs. apply filter_In in Hs as [_ Hs].
  unfold Spec.left_candidate in Hs. apply andb_true_iff in Hs as [Hs _].
  apply negb_true_iff in Hs. exact Hs.
Qed.

Lemma filter_nonvertical_right (segs : list segment) :
  Forall (fun s => vertical s = false) (filter Spec.right_candidate segs).
Proof.
  apply Forall_forall. intros s Hs. apply filter_In in Hs as [_ Hs].
  unfold Spec.right_candidate in Hs. apply andb_true_iff in Hs as [Hs _].
  apply negb_true_iff in Hs. exact Hs.
Qed.

Lemma Forall_filter_keep {A} (P : A -> Prop) (f : A -> bool) l :
  Forall P l -> Forall P (filter f l).
Proof.
  rewrite !Forall_forall. intros Hl x Hx. apply filter_In in Hx as [Hx _]. auto.
Qed.

(** ** The contract of the Lane Averager, for every arithmetic *)

Section AveragerContract.

Context {F : Type} `{Float64 F}.

Lemma average_side_mean (cs : list segment) :
  average (map length_of cs) (map entry cs) = side_mean cs.
Proof. destruct cs; reflexivity. Qed.

(** C1, amended: for every input and every float arithmetic, the Lane
    Averager skips the vertical segments, takes as left candidates the
    segments whose computed slope is below 0 and as right candidates all
    the others, and returns for each side the dot product of the lengths
    with the (slope, intercept) pairs divided by the sum of the lengths,
    each taken in the float arithmetic: the weighted mean up to rounding;
    a side without candidates is absent.  On pixel coordinates below 2^15
    the int32 differences and squares do not wrap: the slope is the float
    quotient of y2 - y1 by x2 - x1, the intercept is y1 - slope * x1 and
    the weight is the float square root of the integer
    (y2 - y1)^2 + (x2 - x1)^2. *)
Theorem average_slope_intercept_weighted_mean (lines : list (list segment)) :
  average_slope_intercept (Some lines)
  = Ok (side_mean (filter goes_left (concat lines)),
        side_mean (filter goes_right (concat lines))) /\
  (forall s,
      (goes_left s = true <->
       vertical s = false /\ flt (slope_of s) (of_int 0) = true) /\
      (goes_right s = true <->
       vertical s = false /\ flt (slope_of s) (of_int 0) = false)) /\
  (forall x1 y1 x2 y2,
      in_frame (x1, y1, x2, y2) ->
      slope_of (x1, y1, x2, y2) = fdiv (of_int (y2 - y1)) (of_int (x2 - x1)) /\
      intercept_of (x1, y1, x2, y2)
      = fsub (of_int y1)
          (fmul (fdiv (of_int (y2 - y1)) (of_int (x2 - x1))) (of_int x1)) /\
      length_of (x1, y1, x2, y2)
      = fsqrt (of_int ((y2 - y1) * (y2 - y1) + (x2 - x1) * (x2 - x1)))).
Proof.
  split; [| split].
  - rewrite average_slope_intercept_filter, !average_side_mean. reflexivity.
  - intros s. unfold goes_left, goes_right.
    rewrite !andb_true_iff, !negb_true_iff. tauto.
  - intros x1 y1 x2 y2 Hf.
    destruct (in_frame_diffs _ _ _ _ Hf) as (Hdy & Hdx & Hsq).
    unfold intercept_of, length_of, slope_of. rewrite Hsq, Hdy, Hdx.
    repeat split.
Qed.

End AveragerContract.

Lemma average_slope_intercept_witness :
  in_frame (10, 90, 40, 30) /\
  length_of (F:=float) (10, 90, 40, 30)
  = fsqrt (of_int ((30 - 90) * (30 - 90) + (40 - 10) * (40 - 10))).
Proof.
  assert (Hf : in_frame (10, 90, 40, 30)) by (unfold in_frame; lia).
  split; [exact Hf |].
  exact (proj2 (proj2 (proj2 (proj2
    (average_slope_intercept_weighted_mean (F:=float) [])) 10 90 40 30 Hf))).
Defined.

(** The same input in binary64: the two sides come out as the floats
    (-2, 110) and (2, -80), and the lane segments as below. *)
Example binary64_average_slope_intercept :
  average_slope_intercept (F:=float)
    (Some [[(10, 90, 40, 30)]; [(5, 5, 5, 9)]; [(60, 40, 80, 80)]])
  = Ok (Some (of_int (-2), of_int 110), Some (of_int 2, of_int (-80))).
Proof. vm_compute. reflexivity. Qed.

Example binary64_lane_lines :
  lane_lines (F:=float) 100
    (Some [[(10, 90, 40, 30)]; [(5, 5, 5, 9)]; [(60, 40, 80, 80)]])
  = Ok (Some ((5, 100), (25, 60)), Some ((90, 100), (70, 60))).
Proof. vm_compute. reflexivity. Qed.

(** ** Vertical segments *)

Section VerticalSegments.

Context {F : Type} `{Float64 F}.

Lemma vertical_not_candidate v :
  vertical v = true -> goes_left v = false /\ goes_right v = false.
Proof. intros Hv. unfold goes_left, goes_right. rewrite Hv. split; reflexivity. Qed.

Lemma filter_skip (f : segment -> bool) v before after pre post :
  f v = false ->
  filter f (concat (before ++ (pre ++ v :: post) :: after))
  = filter f (concat (before ++ (pre ++ post) :: after)).
Proof.
  intros Hv. rewrite !concat_app. simpl. rewrite !filter_app. simpl.
  rewrite Hv. reflexivity.
Qed.

Lemma filter_skip_line (f : segment -> bool) v before after :
  f v = false ->
  filter f (concat (before ++ [v] :: after)) = filter f (concat (before ++ after)).
Proof.
  intros Hv. rewrite !concat_app. simpl. rewrite !filter_app. simpl.
  rewrite Hv. reflexivity.
Qed.

(** C3: a vertical segment leaves the four lists of the loop as they
    are, and the output of the Lane Averager (the two lane models, and
    the two lane segments drawn from them) is the same with the segment
    in the input, in a row of its own or inside another row, as without
    it. *)
Theorem vertical_segment_ignored (v : segment) :
  vertical v = true ->
  (forall st, visit st v = st) /\
  (forall before after pre post,
      average_slope_intercept (Some (before ++ (pre ++ v :: post) :: after))
      = average_slope_intercept (Some (before ++ (pre ++ post) :: after)) /\
      forall nrows,
        lane_lines nrows (Some (before ++ (pre ++ v :: post) :: after))
        = lane_lines nrows (Some (before ++ (pre ++ post) :: after))) /\
  (forall before after,
      average_slope_intercept (Some (before ++ [v] :: after))
      = average_slope_intercept (Some (before ++ after)) /\
      forall nrows,
        lane_lines nrows (Some (before ++ [v] :: after))
        = lane_lines nrows (Some (before ++ after))).
Proof.
  intros Hv. destruct (vertical_not_candidate v Hv) as [Hl Hr].
  split; [intros st; apply visit_vertical; exact Hv |].
  split.
  - intros before after pre post.
    assert (Heq : average_slope_intercept (Some (before ++ (pre ++ v :: post) :: after))
                  = average_slope_intercept (Some (before ++ (pre ++ post) :: after))).
    { rewrite !average_slope_intercept_filter.
      rewrite (filter_skip goes_left v before after pre post Hl).
      rewrite (filter_skip goes_right v before after pre post Hr).
      reflexivity. }
    split; [exact Heq |].
    intros nrows. unfold lane_lines. rewrite Heq. reflexivity.
  - intros before after.
    assert (Heq : average_slope_intercept (Some (before ++ [v] :: after))
                  = average_slope_intercept (Some (before ++ after))).
    { rewrite !average_slope_intercept_filter.
      rewrite (filter_skip_line goes_left v before after Hl).
      rewrite (filter_skip_line goes_right v before after Hr).
      reflexivity. }
    split; [exact Heq |].
    intros nrows. unfold lane_lines. rewrite Heq. reflexivity.
Qed.

End VerticalSegments.

Lemma vertical_segment_ignored_witness :
  vertical (5, 5, 5, 9) = true /\
  average_slope_intercept (F:=float)
    (Some ([[(10, 90, 40, 30)]] ++ [(5, 5, 5, 9)] :: [[(60, 40, 80, 80)]]))
  = average_slope_intercept (F:=float)
      (Some ([[(10, 90, 40, 30)]] ++ [[(60, 40, 80, 80)]])).
Proof.
  split; [reflexivity |].
  apply (proj2 (proj2 (vertical_segment_ignored (F:=float) (5, 5, 5, 9) eq_refl))
           [[(10, 90, 40, 30)]] [[(60, 40, 80, 80)]]).
Defined.

(** ** Absent lanes *)

Section AbsentLanes.

Context {F : Type} `{Float64 F}.

(** C4: a side to which the loop appended no segment has the lane model
    [None] (the call does not raise and the model is not a pair of
    numbers), and [__pixel_points] turns the lane model [None] into the
    lane segment [None]. *)
Theorem empty_side_absent (lines : list (list segment)) :
  (filter goes_left (concat lines) = [] ->
   exists right_lane,
     average_slope_intercept (F:=F) (Some lines) = Ok (None, right_lane)) /\
  (filter goes_right (concat lines) = [] ->
   exists left_lane,
     average_slope_intercept (F:=F) (Some lines) = Ok (left_lane, None)) /\
  (forall y1 y2 : F, pixel_points y1 y2 None = Ok None).
Proof.
  repeat split.
  - intros Hl. rewrite average_slope_intercept_filter, Hl. eexists. reflexivity.
  - intros Hr. rewrite average_slope_intercept_filter, Hr. eexists. reflexivity.
Qed.

End AbsentLanes.

Lemma empty_side_absent_witness :
  filter (goes_left (F:=float)) (concat [[(60, 40, 80, 80)]]) = [] /\
  exists right_lane,
    average_slope_intercept (F:=float) (Some [[(60, 40, 80, 80)]])
    = Ok (None, right_lane).
Proof.
  assert (Hl : filter (goes_left (F:=float)) (concat [[(60, 40, 80, 80)]]) = [])
    by (vm_compute; reflexivity).
  split; [exact Hl |].
  exact (proj1 (empty_side_absent (F:=float) [[(60, 40, 80, 80)]]) Hl).
Defined.

(** ** Pixel endpoints *)

Lemma ideal_pixel_points (y1 y2 slope intercept : R) :
  slope <> 0%R ->
  pixel_points (F:=xreal) (Fin y1) (Fin y2) (Some (Fin slope, Fin intercept))
  = Ok (Some ((XR.trunc ((y1 - intercept) / slope), XR.trunc y1),
              (XR.trunc ((y2 - intercept) / slope), XR.trunc y2))).
Proof.
  intros Hs. unfold pixel_points. cbn [fsub fdiv to_int ideal].
  unfold XR.sub. cbn [XR.opp XR.add].
  rewrite !div_Fin by exact Hs. reflexivity.
Qed.

Lemma ideal_decimal n d : d <> 0 -> decimal (F:=xreal) n d = Fin (IZR n / IZR d).
Proof.
  intros Hd. unfold decimal. cbn [fdiv of_int ideal].
  apply div_Fin. apply not_0_IZR. exact Hd.
Qed.

(** C5, amended: [__lane_lines] converts both lane models at
    [y1 = image.shape[0]] and [y2 = y1 * 0.6]; the conversion takes the
    float64 difference [y - intercept] and the float64 quotient by the
    slope, each rounded, and returns the integer parts, truncated towards
    zero, of these rounded quotients and of the two ordinates; it returns
    them whenever the quotients are finite and raises otherwise.  At
    [y1 = 100], [y2 = 60 = 100 * 0.6], slope -2 and intercept 300 it
    returns ((100, 100), (120, 60)). *)
Theorem pixel_points_conversion :
  (forall (F : Type) (A : Float64 F) (nrows : Z) (lines : hough_lines)
          (left_lane right_lane : lane (F:=F)),
      average_slope_intercept lines = Ok (left_lane, right_lane) ->
      lane_lines nrows lines
      = (left_line <- pixel_points (of_int nrows)
                        (fmul (of_int nrows) (decimal 6 10)) left_lane ;;
         right_line <- pixel_points (of_int nrows)
                         (fmul (of_int nrows) (decimal 6 10)) right_lane ;;
         Ok (left_line, right_line))) /\
  (forall y1 y2 slope intercept : float,
      pixel_points (F:=float) y1 y2 (Some (slope, intercept))
      = (x1 <- int_of_value (float_value (fdiv (fsub y1 intercept) slope)) ;;
         x2 <- int_of_value (float_value (fdiv (fsub y2 intercept) slope)) ;;
         y1' <- int_of_value (float_value y1) ;;
         y2' <- int_of_value (float_value y2) ;;
         Ok (Some ((x1, y1'), (x2, y2'))))) /\
  (forall (y1 y2 slope intercept : float) (q1 q2 v1 v2 : Q),
      float_value (fdiv (fsub y1 intercept) slope) = Finite q1 ->
      float_value (fdiv (fsub y2 intercept) slope) = Finite q2 ->
      float_value y1 = Finite v1 ->
      float_value y2 = Finite v2 ->
      pixel_points (F:=float) y1 y2 (Some (slope, intercept))
      = Ok (Some ((Qtruncate q1, Qtruncate v1), (Qtruncate q2, Qtruncate v2)))) /\
  PrimFloat.eqb (fmul (of_int 100) (decimal 6 10)) (of_int 60) = true /\
  pixel_points (F:=float) (of_int 100) (of_int 60) (Some (of_int (-2), of_int 300))
  = Ok (Some ((100, 100), (120, 60))).
Proof.
  assert (Hpp : forall y1 y2 slope intercept : float,
             pixel_points (F:=float) y1 y2 (Some (slope, intercept))
             = (x1 <- int_of_value (float_value (fdiv (fsub y1 intercept) slope)) ;;
                x2 <- int_of_value (float_value (fdiv (fsub y2 intercept) slope)) ;;
                y1' <- int_of_value (float_value y1) ;;
                y2' <- int_of_value (float_value y2) ;;
                Ok (Some ((x1, y1'), (x2, y2'))))).
  { intros y1 y2 slope intercept. unfold pixel_points.
    rewrite !b64_to_int_value. reflexivity. }
  split; [| split; [| split; [| split]]].
  - intros F A nrows lines left_lane right_lane Havg.
    unfold lane_lines. rewrite Havg, bind_Ok. reflexivity.
  - exact Hpp.
  - intros y1 y2 slope intercept q1 q2 v1 v2 H1 H2 H3 H4.
    rewrite Hpp, H1, H2, H3, H4. reflexivity.
  - vm_compute. reflexivity.
  - vm_compute. reflexivity.
Qed.

(** Slope -3 and intercept 30 at the ordinates 100 and 60: the quotients
    are -23.33... and -10, truncated to -23 and -10. *)
Lemma pixel_points_conversion_witness :
  pixel_points (F:=float) (of_int 100) (of_int 60) (Some (of_int (-3), of_int 30))
  = Ok (Some ((-23, 100), (-10, 60))).
Proof.
  eapply eq_trans.
  - eapply (proj1 (proj2 (proj2 pixel_points_conversion))
              (of_int 100) (of_int 60) (of_int (-3)) (of_int 30));
      vm_compute; reflexivity.
  - vm_compute. reflexivity.
Defined.

(** Truncation is towards zero on both sides of it. *)
Example binary64_truncation :
  pixel_points (F:=float) (of_int 100) (of_int 60) (Some (of_int 3, of_int 300))
  = Ok (Some ((-66, 100), (-80, 60))) /\
  pixel_points (F:=float) (of_int 100) (of_int 60) (Some (of_int 3, of_int 30))
  = Ok (Some ((23, 100), (10, 60))) /\
  to_int (F:=float) (fdiv (of_int (-7)) (of_int 2)) = Ok (-3) /\
  to_int (F:=float) (fdiv (of_int 7) (of_int 2)) = Ok 3.
Proof. repeat split; vm_compute; reflexivity. Qed.

(** C5 as stated fails.  For the segment (0,13)-(1,12) the Lane Averager
    returns the slope -1 and the intercept 13.000000000000002; at the
    ordinates 100 and 60 the conversion returns the abscissas -87 and -47,
    while [(y - intercept) / slope] taken exactly truncates to -86 and
    -46: the difference is rounded to 87 and 47 before the division.  And
    the slope 2^-1074 is not zero, yet the quotient 100 / 2^-1074 is
    infinite and the conversion raises OverflowError. *)
Lemma pixel_points_not_exact_quotient :
  average_slope_intercept (F:=float) (Some [[(0, 13, 1, 12)]])
  = Ok (Some (of_int (-1), 0x1.a000000000001p+3%float), None) /\
  pixel_points (F:=float) (of_int 100) (of_int 60)
    (Some (of_int (-1), 0x1.a000000000001p+3%float))
  = Ok (Some ((-87, 100), (-47, 60))) /\
  exact_abscissa 100 (of_int (-1)) 0x1.a000000000001p+3%float = Some (-86) /\
  exact_abscissa 60 (of_int (-1)) 0x1.a000000000001p+3%float = Some (-46) /\
  PrimFloat.eqb 0x1p-1074%float PrimFloat.zero = false /\
  pixel_points (F:=float) (of_int 100) (of_int 60) (Some (0x1p-1074%float, of_int 0))
  = Raise OverflowError.
Proof. repeat split; vm_compute; reflexivity. Qed.

(** ** Horizontal segments *)

Lemma horizontal_slope x1 y x2 : x1 <> x2 -> Spec.slope (x1, y, x2, y) = 0%R.
Proof.
  intros Hx. unfold Spec.slope. rewrite Z.sub_diag.
  assert (IZR (x2 - x1) <> 0%R) by (apply not_0_IZR; lia).
  field. assumption.
Qed.

Lemma horizontal_intercept x1 y x2 : x1 <> x2 -> Spec.intercept (x1, y, x2, y) = IZR y.
Proof.
  intros Hx. unfold Spec.intercept. rewrite (horizontal_slope x1 y x2 Hx). ring.
Qed.

Lemma ideal_zero_slope_raises (y1 y2 : xreal) (intercept : R) :
  exists e, pixel_points (F:=xreal) y1 y2 (Some (Fin 0, Fin intercept)) = Raise e.
Proof.
  unfold pixel_points. cbn [fsub fdiv to_int ideal].
  destruct y1 as [a | s |]; cbn [XR.sub XR.opp XR.add XR.div].
  - rewrite is_zero_true. destruct (XR.is_zero (a + - intercept)); eexists; reflexivity.
  - eexists; reflexivity.
  - eexists; reflexivity.
Qed.

(** C2: a horizontal segment with distinct abscissas has slope exactly 0,
    takes the right-hand branch of the loop, and alone in the input gives
    the right lane model (0, y); [__pixel_points] then divides by that
    zero slope unguarded, so that the conversion, and [__lane_lines] with
    it, ends in an exception for every image height.  In binary64, on the
    segment (0,5)-(10,5) and an image of 100 rows, the quotient is
    infinite and [int] raises OverflowError. *)
Theorem horizontal_segment_divides_by_zero (x1 y x2 : Z) :
  in_frame (x1, y, x2, y) -> x1 <> x2 ->
  slope_of (F:=xreal) (x1, y, x2, y) = Fin 0 /\
  goes_right (F:=xreal) (x1, y, x2, y) = true /\
  average_slope_intercept (F:=xreal) (Some [[(x1, y, x2, y)]])
  = Ok (None, Some (Fin 0, Fin (IZR y))) /\
  (forall y1 y2 : xreal,
      exists e, pixel_points y1 y2 (Some (Fin 0, Fin (IZR y))) = Raise e) /\
  (forall nrows : Z,
      exists e, lane_lines (F:=xreal) nrows (Some [[(x1, y, x2, y)]]) = Raise e) /\
  average_slope_intercept (F:=float) (Some [[(0, 5, 10, 5)]])
  = Ok (None, Some (of_int 0, of_int 5)) /\
  lane_lines (F:=float) 100 (Some [[(0, 5, 10, 5)]]) = Raise OverflowError.
Proof.
  intros Hf Hx.
  assert (Hv : vertical (x1, y, x2, y) = false) by (apply Z.eqb_neq; exact Hx).
  assert (Hs : slope_of (F:=xreal) (x1, y, x2, y) = Fin 0).
  { rewrite (ideal_slope_of _ Hf Hv), (horizontal_slope x1 y x2 Hx). reflexivity. }
  assert (Hr : goes_right (F:=xreal) (x1, y, x2, y) = true).
  { unfold goes_right. rewrite Hv, Hs. cbn [flt of_int ideal XR.ltb negb andb].
    destruct (Rlt_dec 0 0); [lra | reflexivity]. }
  assert (Hl : goes_left (F:=xreal) (x1, y, x2, y) = false).
  { destruct (branch_cases (F:=xreal) (x1, y, x2, y)) as [(E & _) | [(_ & _ & E) | (_ & E & _)]];
      congruence. }
  assert (Havg : average_slope_intercept (F:=xreal) (Some [[(x1, y, x2, y)]])
                 = Ok (None, Some (Fin 0, Fin (IZR y)))).
  { rewrite average_slope_intercept_filter.
    cbn [concat app filter]. rewrite Hl, Hr.
    rewrite (ideal_average (@cons segment (x1, y, x2, y) (@nil segment)))
      by (constructor; [assumption | constructor]).
    cbn [map average]. unfold Spec.weighted_mean, exact_lane. cbn [map Spec.sum fold_right].
    rewrite (horizontal_slope x1 y x2 Hx), (horizontal_intercept x1 y x2 Hx).
    pose proof (length_pos _ Hv) as Hlen.
    set (len := Spec.length (x1, y, x2, y)) in *.
    replace ((len * 0 + 0) / (len + 0))%R with 0%R by (field; lra).
    replace ((len * IZR y + 0) / (len + 0))%R with (IZR y) by (field; lra).
    reflexivity. }
  split; [| split; [| split; [| split; [| split; [| split]]]]].
  - exact Hs.
  - exact Hr.
  - exact Havg.
  - intros y1 y2. apply ideal_zero_slope_raises.
  - intros nrows. unfold lane_lines. rewrite Havg, bind_Ok.
    cbv zeta.
    destruct (ideal_zero_slope_raises (of_int nrows)
                (fmul (of_int nrows) (decimal 6 10)) (IZR y)) as [e He].
    exists e. rewrite He. reflexivity.
  - vm_compute. reflexivity.
  - vm_compute. reflexivity.
Qed.

Lemma horizontal_segment_divides_by_zero_witness :
  (in_frame (0, 5, 10, 5) /\ 0 <> 10) /\
  average_slope_intercept (F:=xreal) (Some [[(0, 5, 10, 5)]])
  = Ok (None, Some (Fin 0, Fin 5)).
Proof.
  assert (Hf : in_frame (0, 5, 10, 5)) by (unfold in_frame; lia).
  assert (Hx : 0 <> 10) by lia.
  split; [split; assumption |].
  exact (proj1 (proj2 (proj2 (horizontal_segment_divides_by_zero 0 5 10 Hf Hx)))).
Defined.

(** ** The Region Selector *)

Lemma ideal_scaled (c n d : Z) :
  0 <= c < 2 ^ 31 -> 0 <= n <= d -> 0 < d ->
  astype_int32 (F:=xreal) (fmul (of_int c) (decimal n d)) = c * n / d.
Proof.
  intros Hc Hn Hd.
  rewrite ideal_decimal by lia.
  unfold astype_int32. cbn [fmul of_int to_int ideal XR.mul XR.to_int].
  replace (IZR c * (IZR n / IZR d))%R with (IZR (c * n) / IZR d)%R.
  2:{ rewrite mult_IZR. field. apply not_0_IZR. lia. }
  rewrite trunc_quot by nia.
  assert (0 <= c * n / d) by (apply Z.div_pos; nia).
  assert (c * n / d <= c) by (apply Z.div_le_upper_bound; nia).
  replace (- 2 ^ 31 <=? c * n / d) with true by (symmetry; apply Z.leb_le; lia).
  replace (c * n / d <? 2 ^ 31) with true by (symmetry; apply Z.ltb_lt; lia).
  reflexivity.
Qed.

Lemma ideal_vertices (h w : Z) :
  0 <= h < 2 ^ 31 -> 0 <= w < 2 ^ 31 ->
  vertices (F:=xreal) h w = [truncated_trapezoid h w].
Proof.
  intros Hh Hw. unfold vertices, truncated_trapezoid. cbn [map fst snd].
  rewrite !ideal_scaled by lia. reflexivity.
Qed.

Lemma land_255 p : 0 <= p < 256 -> Z.land p 255 = p.
Proof.
  intros Hp. change 255 with (Z.ones 8).
  rewrite Z.land_ones by lia. apply Z.mod_small. exact Hp.
Qed.

Lemma component_repeat n ch : (ch < n)%nat -> component (repeat 255 n) ch = 255.
Proof.
  unfold component. revert ch. induction n as [|n IH]; intros ch Hch; [lia |].
  destruct ch as [|ch]; simpl; [reflexivity |]. apply IH. lia.
Qed.

Lemma ignore_mask_color_component img ch :
  has_channel img ch -> component (ignore_mask_color img) ch = 255.
Proof.
  unfold has_channel, ignore_mask_color.
  destruct (channels img) as [n |].
  - apply component_repeat.
  - intros ->. reflexivity.
Qed.

(** Rounding does not show in the polygon: for every size below 4096 the
    binary64 products truncate to the same integers as the exact ones. *)
Example binary64_vertices_agree :
  forallb binary64_agrees (map Z.of_nat (seq 0 4096)) = true.
Proof. vm_compute. reflexivity. Qed.

(** On a 100 by 100 edge map the coordinates are whole and the polygon is
    the trapezoid (10,95), (40,60), (60,60), (90,95). *)
Example fills_trapezoid_100 :
  fills_trapezoid (F:=float) 100 100 /\
  vertices (F:=float) 100 100 = [[(10, 95); (40, 60); (60, 60); (90, 95)]].
Proof. split; vm_compute; reflexivity. Qed.

Section RegionSelectorFacts.

Variable poly_pixels : list (list (Z * Z)) -> Z -> Z -> bool.

(** C6, amended: for a non-empty edge map, 2-D or of 2 to 4 channels,
    the Region Selector hands [cv2.fillPoly] the trapezoid whose
    coordinates are 0.1W, 0.4W, 0.6W, 0.9W and 0.6H, 0.95H truncated to
    integers; the mask has the shape of the input and its colour has one
    255 per channel; the result has the channels of the input, each pixel
    the fill paints keeps its value and every other pixel becomes 0.
    Where the fill of [cv2.fillPoly] is the inside of the polygon, the
    pixels kept are those inside that trapezoid and the pixels outside it
    are 0. *)
Theorem region_selection_truncated_trapezoid (img : image) (y x : Z) (ch : nat) :
  0 < rows img < 2 ^ 31 -> 0 < cols img < 2 ^ 31 ->
  supported_channels img ->
  has_channel img ch ->
  0 <= pix img y x ch < 256 ->
  vertices (F:=xreal) (rows img) (cols img)
  = [truncated_trapezoid (rows img) (cols img)] /\
  channels (fillPoly poly_pixels (zeros_like img)
              (vertices (F:=xreal) (rows img) (cols img)) (ignore_mask_color img))
  = channels img /\
  length (ignore_mask_color img)
  = match channels img with None => 1%nat | Some channel_count => channel_count end /\
  channels (region_selection (F:=xreal) poly_pixels img) = channels img /\
  pix (region_selection (F:=xreal) poly_pixels img) y x ch
  = (if poly_pixels [truncated_trapezoid (rows img) (cols img)] x y
     then pix img y x ch else 0) /\
  (poly_pixels [truncated_trapezoid (rows img) (cols img)] x y
   = inside_convex (truncated_trapezoid (rows img) (cols img)) x y ->
   pix (region_selection (F:=xreal) poly_pixels img) y x ch
   = if inside_convex (truncated_trapezoid (rows img) (cols img)) x y
     then pix img y x ch else 0).
Proof.
  intros Hr Hc Hs Hch Hp.
  pose proof (ideal_vertices (rows img) (cols img) ltac:(lia) ltac:(lia)) as Hv.
  assert (Hpix : pix (region_selection (F:=xreal) poly_pixels img) y x ch
                 = if poly_pixels [truncated_trapezoid (rows img) (cols img)] x y
                   then pix img y x ch else 0).
  { unfold region_selection, bitwise_and, fillPoly, paint, zeros_like. cbn [pix].
    rewrite Hv.
    destruct (poly_pixels [truncated_trapezoid (rows img) (cols img)] x y).
    - rewrite (ignore_mask_color_component img ch Hch). apply land_255. exact Hp.
    - apply Z.land_0_r. }
  split; [exact Hv |]. split; [reflexivity |]. split.
  { unfold ignore_mask_color. destruct (channels img); [apply repeat_length | reflexivity]. }
  split.
  { unfold region_selection, bitwise_and. cbn [channels].
    unfold supported_channels in Hs.
    destruct (channels img) as [[|[|n]] |]; cbn [squeeze]; try reflexivity; lia. }
  split; [exact Hpix |].
  intros Hfill. rewrite Hpix, Hfill. reflexivity.
Qed.

End RegionSelectorFacts.

(** A white 2-D edge map of 10 rows and 15 columns, with a fill that is
    the inside of the polygon: (7, 7) is kept. *)
Lemma region_selection_truncated_trapezoid_witness :
  ((0 < 10 < 2 ^ 31 /\ 0 < 15 < 2 ^ 31) /\
   supported_channels (mkImage 10 15 None (fun _ _ _ => 255)) /\
   has_channel (mkImage 10 15 None (fun _ _ _ => 255)) 0) /\
  pix (region_selection (F:=xreal)
         (fun pts x y => match pts with [p] => inside_convex p x y | _ => false end)
         (mkImage 10 15 None (fun _ _ _ => 255))) 7 7 0
  = if inside_convex (truncated_trapezoid 10 15) 7 7 then 255 else 0.
Proof.
  split; [split; [lia | split; [exact I | reflexivity]] |].
  exact (proj2 (proj2 (proj2 (proj2 (proj2
    (region_selection_truncated_trapezoid
       (fun pts x y => match pts with [p] => inside_convex p x y | _ => false end)
       (mkImage 10 15 None (fun _ _ _ => 255)) 7 7 0
       ltac:(simpl; lia) ltac:(simpl; lia) I eq_refl ltac:(simpl; lia)))))) eq_refl).
Defined.

(** C6 as stated fails: for an edge map of 10 rows and 15 columns the
    polygon handed to [cv2.fillPoly] is (1,9), (6,6), (9,6), (13,9), not
    the trapezoid (1.5,9.5), (6,6), (9,6), (13.5,9.5); its vertex (1,9)
    lies to the left of every vertex of that trapezoid, hence outside
    it.  And an input of shape (10, 15, 1) comes back 2-D, not with the
    channel count of the input. *)
Lemma region_selection_not_fractional_trapezoid :
  ~ fills_trapezoid (F:=float) 10 15 /\
  ~ fills_trapezoid (F:=xreal) 10 15 /\
  vertices (F:=float) 10 15 = [[(1, 9); (6, 6); (9, 6); (13, 9)]] /\
  forallb (fun q => Qle_bool (3 # 2) (fst q)) (Spec.trapezoid 10 15) = true /\
  channels (region_selection (F:=float) (fun _ _ _ => true)
              (mkImage 10 15 (Some 1%nat) (fun _ _ _ => 255)))
  <> channels (mkImage 10 15 (Some 1%nat) (fun _ _ _ => 255)).
Proof.
  assert (Hfl : vertices (F:=float) 10 15 = [[(1, 9); (6, 6); (9, 6); (13, 9)]])
    by (vm_compute; reflexivity).
  split; [| split; [| split; [| split]]].
  - unfold fills_trapezoid. rewrite Hfl. vm_compute. discriminate.
  - unfold fills_trapezoid. rewrite ideal_vertices by lia. vm_compute. discriminate.
  - exact Hfl.
  - vm_compute. reflexivity.
  - cbn. discriminate.
Qed.

(** ** The Line Renderer *)

Lemma round_half_even_comp (q q' : Q) :
  (q == q')%Q -> round_half_even q = round_half_even q'.
Proof.
  intros E. unfold round_half_even.
  rewrite (Qfloor_comp q q' E).
  assert (E' : (q - inject_Z (Qfloor q') == q' - inject_Z (Qfloor q'))%Q)
    by (rewrite E; reflexivity).
  rewrite (Qcompare_comp _ _ E' _ _ (Qeq_refl (1 # 2))).
  reflexivity.
Qed.

Lemma round_half_even_inject z : round_half_even (inject_Z z) = z.
Proof.
  unfold round_half_even. rewrite Qfloor_Z.
  assert (E : (inject_Z z - inject_Z z == 0)%Q) by ring.
  rewrite (Qcompare_comp _ _ E _ _ (Qeq_refl (1 # 2))).
  reflexivity.
Qed.

(** Blending with the weights 1.0, 1.0, 0.0 is the saturated sum. *)
Lemma addWeighted_unit src1 src2 y x ch :
  pix (addWeighted src1 1 src2 1 0) y x ch
  = saturate_u8 (pix src1 y x ch + pix src2 y x ch).
Proof.
  unfold addWeighted. cbn [pix]. f_equal.
  set (a := pix src1 y x ch). set (b := pix src2 y x ch).
  assert (E : (inject_Z a * 1 + inject_Z b * 1 + 0 == inject_Z (a + b))%Q)
    by (rewrite inject_Z_plus; ring).
  rewrite (round_half_even_comp _ _ E).
  apply round_half_even_inject.
Qed.

Section LineRendererFacts.

Variable stroke_pixels : Z * Z -> Z * Z -> Z -> Z -> Z -> bool.

Lemma draw_lane_lines_pixel img lines c thickness y x ch :
  pix (draw_lane_lines stroke_pixels img lines c thickness) y x ch
  = saturate_u8
      (pix img y x ch
       + if covered stroke_pixels lines thickness x y
         then component (match c with None => [255; 0; 0] | Some c => c end) ch
         else 0).
Proof.
  unfold draw_lane_lines. rewrite addWeighted_unit. do 2 f_equal.
  destruct lines as [l r]. unfold covered. cbn [fst snd fold_left].
  destruct l as [[p q] |], r as [[p' q'] |]; cbn [cv2_line paint zeros_like pix];
    try reflexivity.
  destruct (stroke_pixels p q thickness x y), (stroke_pixels p' q' thickness x y);
    reflexivity.
Qed.

(** Absent segments are skipped: with none present the uint8 frame comes
    back pixel for pixel. *)
Lemma draw_lane_lines_absent img c thickness y x ch :
  0 <= pix img y x ch < 256 ->
  pix (draw_lane_lines stroke_pixels img (None, None) c thickness) y x ch
  = pix img y x ch.
Proof.
  intros Hp. rewrite draw_lane_lines_pixel. cbn [covered fst snd].
  unfold saturate_u8. lia.
Qed.

(** C7, on the code: the overlay starts from zeros, the stroke has the
    thickness 12, the blend is the saturated sum of frame and overlay, and
    an absent segment paints nothing; but the default colour [255, 0, 0]
    is written to the channels in the order of the frame, which is
    blue, green, red: under a stroke the blue channel becomes 255 and the
    red and green channels keep the values of the frame.  On a black
    frame the line is blue, not red. *)
Theorem draw_lane_lines_default_color (img : image) (left_line right_line : lane_segment)
  (y x : Z) :
  covered stroke_pixels (left_line, right_line) default_thickness x y = true ->
  (forall ch, 0 <= pix img y x ch < 256) ->
  let out := draw_lane_lines stroke_pixels img (left_line, right_line) None
               default_thickness in
  pix out y x (channel_of Blue) = 255 /\
  pix out y x (channel_of Green) = pix img y x (channel_of Green) /\
  pix out y x (channel_of Red) = pix img y x (channel_of Red).
Proof.
  intros Hc Hp out. subst out.
  rewrite !draw_lane_lines_pixel, Hc. cbn [channel_of component nth].
  pose proof (Hp 0%nat). pose proof (Hp 1%nat). pose proof (Hp 2%nat).
  unfold saturate_u8. repeat split; lia.
Qed.

End LineRendererFacts.

(** A black 3-channel frame of one pixel and the segment (0,0)-(0,0). *)
Lemma draw_lane_lines_default_color_witness :
  pix (draw_lane_lines (fun p q _ x y => (x =? fst p) && (y =? snd p))
         (mkImage 1 1 (Some 3%nat) (fun _ _ _ => 0))
         (Some ((0, 0), (0, 0)), None) None default_thickness) 0 0 (channel_of Red) = 0 /\
  pix (draw_lane_lines (fun p q _ x y => (x =? fst p) && (y =? snd p))
         (mkImage 1 1 (Some 3%nat) (fun _ _ _ => 0))
         (Some ((0, 0), (0, 0)), None) None default_thickness) 0 0 (channel_of Blue) = 255.
Proof.
  pose proof (draw_lane_lines_default_color
                (fun p q _ x y => (x =? fst p) && (y =? snd p))
                (mkImage 1 1 (Some 3%nat) (fun _ _ _ => 0))
                (Some ((0, 0), (0, 0))) None 0 0 eq_refl
                ltac:(intros ch; simpl; lia)) as [Hb [_ Hr]].
  split; [exact Hr | exact Hb].
Defined.

(** ** The capture guard *)

(** C8: [prepare_capture] raises CameraNotFoundException exactly when the
    device does not open; all it asks of the camera layer is to build the
    capture and to tell whether it is open, so no frame has been read when
    it raises; when the device opens, the capture it built is returned. *)
Theorem prepare_capture_guard (available : Z -> bool) (camera_index : Z)
  (log : list device_op) :
  (fst (prepare_capture available camera_index log) = Raise CameraNotFoundException
   <-> available camera_index = false) /\
  (available camera_index = true <->
   fst (prepare_capture available camera_index log)
   = Ok (mkCapture camera_index true)) /\
  snd (prepare_capture available camera_index log)
  = log ++ [OpOpen camera_index; OpIsOpened camera_index] /\
  (forall i, In (OpRead i) (snd (prepare_capture available camera_index log))
             -> In (OpRead i) log).
Proof.
  unfold prepare_capture, cam_bind, Capture, isOpened, cam_raise, cam_ret.
  cbn [opened device fst snd].
  destruct (available camera_index) eqn:Ha; cbn [negb fst snd].
  - rewrite <- app_assoc. cbn [app].
    repeat split; try discriminate; try reflexivity.
    intros i Hi. apply in_app_or in Hi as [Hi | Hi]; [exact Hi |].
    destruct Hi as [Hi | [Hi | []]]; discriminate.
  - rewrite <- app_assoc. cbn [app].
    repeat split; try discriminate; try reflexivity.
    intros i Hi. apply in_app_or in Hi as [Hi | Hi]; [exact Hi |].
    destruct Hi as [Hi | [Hi | []]]; discriminate.
Qed.

(** ** No detection *)

Section NoDetection.

Context {F : Type} `{Float64 F}.

Variable cvtColor_BGR2GRAY : image -> image.
Variable GaussianBlur : image -> Z * Z -> Z -> image.
Variable Canny : image -> Z -> Z -> image.
Variable HoughLinesP : image -> hough_args -> hough_lines.
Variable poly_pixels : list (list (Z * Z)) -> Z -> Z -> bool.
Variable stroke_pixels : Z * Z -> Z * Z -> Z -> Z -> Z -> bool.

(** C9: given [None] for [lines], the Lane Averager raises TypeError
    where an empty collection gives the two absent lane models;
    [__lane_lines] raises with it, and so does [frame_processor] on every
    frame for which [cv2.HoughLinesP] returns [None]. *)
Theorem no_detection_raises :
  average_slope_intercept (F:=F) None = Raise TypeError /\
  average_slope_intercept (F:=F) (Some []) = Ok (None, None) /\
  (forall nrows, lane_lines (F:=F) nrows None = Raise TypeError) /\
  (forall img,
      HoughLinesP
        (region_selection (F:=F) poly_pixels
           (Canny (GaussianBlur (cvtColor_BGR2GRAY img) (5, 5) 0) 50 150))
        (mkHoughArgs 1 180 20 20 500) = None ->
      frame_processor (F:=F) cvtColor_BGR2GRAY GaussianBlur Canny HoughLinesP
        poly_pixels stroke_pixels img = Raise TypeError).
Proof.
  repeat split.
  intros img Hnone. unfold frame_processor, hough_transform.
  rewrite Hnone. reflexivity.
Qed.

End NoDetection.

Lemma no_detection_raises_witness :
  frame_processor (F:=float) (fun img => img) (fun img _ _ => img) (fun img _ _ => img)
    (fun _ _ => None) (fun _ _ _ => false) (fun _ _ _ _ _ => false)
    (mkImage 1 1 (Some 3%nat) (fun _ _ _ => 0))
  = Raise TypeError.
Proof.
  apply (proj2 (proj2 (proj2
    (no_detection_raises (F:=float) (fun img => img) (fun img _ _ => img)
       (fun img _ _ => img) (fun _ _ => None) (fun _ _ _ => false)
       (fun _ _ _ _ _ => false))))).
  reflexivity.
Defined.

(** ** [recognite] *)

(** C10: [recognite] returns the frame it is given; the result does not
    go through [frame_processor], whose externals it does not take. *)
Theorem recognite_identity (frame : image) : recognite frame = frame.
Proof. reflexivity. Qed.

(** * Further properties *)

(** ** [execute_frame] *)

(** X1: [execute_frame] shows the frame, once and in the window "Video",
    exactly when the read succeeded, and what it returns is never true in
    a condition: [False] after a failed read, [None] after a successful
    one. *)
Theorem execute_frame_never_truthy (success : bool) (frame : image) (log : shown) :
  truthy (fst (execute_frame success frame log)) = false /\
  (fst (execute_frame success frame log) = PyBool false <-> success = false) /\
  (fst (execute_frame success frame log) = PyNone <-> success = true) /\
  snd (execute_frame success frame log)
  = if success then log ++ [("Video"%string, frame)] else log.
Proof.
  unfold execute_frame, imshow. destruct success; cbn [negb fst snd truthy].
  - repeat split; intros; try reflexivity; discriminate.
  - repeat split; intros; try reflexivity; discriminate.
Qed.

(** ** The Lane Averager, for every arithmetic *)

Section AveragerStructure.

Context {F : Type} `{Float64 F}.

(** X2: the Lane Averager sees only the sequence of segments: how the
    Hough output groups them into rows changes neither the lane models nor
    the lane segments. *)
Theorem grouping_irrelevant (lines lines' : list (list segment)) :
  concat lines = concat lines' ->
  average_slope_intercept (F:=F) (Some lines)
  = average_slope_intercept (Some lines') /\
  forall nrows, lane_lines (F:=F) nrows (Some lines) = lane_lines nrows (Some lines').
Proof.
  intros Hc.
  assert (Heq : average_slope_intercept (F:=F) (Some lines)
                = average_slope_intercept (Some lines')).
  { rewrite !average_slope_intercept_filter, Hc. reflexivity. }
  split; [exact Heq |].
  intros nrows. unfold lane_lines. rewrite Heq. reflexivity.
Qed.

(** X3: a segment changes only the side it is appended to: a segment the
    loop does not append to the left lists leaves the left lane model as
    it was, and likewise on the right. *)
Theorem sides_independent (s : segment) (before after : list (list segment))
  (pre post : list segment) :
  exists left_lane right_lane left_lane' right_lane',
    average_slope_intercept (F:=F) (Some (before ++ (pre ++ post) :: after))
    = Ok (left_lane, right_lane) /\
    average_slope_intercept (F:=F) (Some (before ++ (pre ++ s :: post) :: after))
    = Ok (left_lane', right_lane') /\
    (goes_left s = false -> left_lane' = left_lane) /\
    (goes_right s = false -> right_lane' = right_lane).
Proof.
  rewrite !average_slope_intercept_filter.
  do 4 eexists. split; [reflexivity |]. split; [reflexivity |].
  split; intros Hs.
  - rewrite (filter_skip goes_left s before after pre post Hs). reflexivity.
  - rewrite (filter_skip goes_right s before after pre post Hs). reflexivity.
Qed.

Lemma no_candidate (segs : list segment) :
  forallb vertical segs = true ->
  filter goes_left segs = [] /\ filter goes_right segs = [].
Proof.
  induction segs as [|s segs IH]; intros Hv; [split; reflexivity |].
  cbn [forallb] in Hv. apply andb_true_iff in Hv as [Hs Hrest].
  destruct (vertical_not_candidate s Hs) as [Hl Hr].
  destruct (IH Hrest) as [IHl IHr].
  cbn [filter]. rewrite Hl, Hr. split; assumption.
Qed.

(** X4: when the input is empty or holds vertical segments only, both
    lane models and both lane segments are [None] and nothing is raised,
    whatever the image height. *)
Theorem no_candidates_no_lanes (lines : list (list segment)) (nrows : Z) :
  forallb vertical (concat lines) = true ->
  average_slope_intercept (F:=F) (Some lines) = Ok (None, None) /\
  lane_lines (F:=F) nrows (Some lines) = Ok (None, None).
Proof.
  intros Hv. destruct (no_candidate _ Hv) as [Hl Hr].
  assert (Havg : average_slope_intercept (F:=F) (Some lines) = Ok (None, None)).
  { rewrite average_slope_intercept_filter, Hl, Hr. reflexivity. }
  split; [exact Havg |].
  unfold lane_lines. rewrite Havg. reflexivity.
Qed.

(** What [__pixel_points] returns for the ordinates does not depend on
    the lane model. *)
Lemma pixel_points_ordinates (y1 y2 : F) (line : lane) p q :
  pixel_points y1 y2 line = Ok (Some (p, q)) ->
  to_int y1 = Ok (snd p) /\ to_int y2 = Ok (snd q).
Proof.
  unfold pixel_points. destruct line as [[slope intercept] |]; [| discriminate].
  destruct (to_int (fdiv (fsub y1 intercept) slope)) as [a |]; [| discriminate].
  destruct (to_int (fdiv (fsub y2 intercept) slope)) as [b |]; [| discriminate].
  destruct (to_int y1) as [c |]; [| discriminate].
  destruct (to_int y2) as [d |]; [| discriminate].
  cbn [bind]. intros E. inversion E; subst. split; reflexivity.
Qed.

End AveragerStructure.

Lemma grouping_irrelevant_witness :
  concat [[(10, 90, 40, 30)]; [(60, 40, 80, 80)]]
  = concat [[(10, 90, 40, 30); (60, 40, 80, 80)]] /\
  average_slope_intercept (F:=float) (Some [[(10, 90, 40, 30)]; [(60, 40, 80, 80)]])
  = average_slope_intercept (F:=float) (Some [[(10, 90, 40, 30); (60, 40, 80, 80)]]).
Proof.
  split; [reflexivity |].
  exact (proj1 (grouping_irrelevant (F:=float)
                  [[(10, 90, 40, 30)]; [(60, 40, 80, 80)]]
                  [[(10, 90, 40, 30); (60, 40, 80, 80)]] eq_refl)).
Defined.

Lemma no_candidates_no_lanes_witness :
  forallb vertical (concat [[(5, 5, 5, 9)]; [(7, 1, 7, 3)]]) = true /\
  lane_lines (F:=float) 100 (Some [[(5, 5, 5, 9)]; [(7, 1, 7, 3)]]) = Ok (None, None).
Proof.
  split; [reflexivity |].
  exact (proj2 (no_candidates_no_lanes (F:=float)
                  [[(5, 5, 5, 9)]; [(7, 1, 7, 3)]] 100 eq_refl)).
Defined.

(** ** The Lane Averager in exact arithmetic *)

(** On the segments of a frame the code returns the weighted means of the
    two candidate lists. *)
Lemma ideal_lanes (lines : list (list segment)) :
  Forall in_frame (concat lines) ->
  average_slope_intercept (F:=xreal) (Some lines)
  = Ok (exact_lane (Spec.weighted_mean (filter Spec.left_candidate (concat lines))),
        exact_lane (Spec.weighted_mean (filter Spec.right_candidate (concat lines)))).
Proof.
  intros Hf. rewrite average_slope_intercept_filter.
  rewrite Forall_forall in Hf.
  rewrite (filter_ext_in (goes_left (F:=xreal)) Spec.left_candidate (concat lines))
    by (intros s Hs; apply ideal_goes_left; auto).
  rewrite (filter_ext_in (goes_right (F:=xreal)) Spec.right_candidate (concat lines))
    by (intros s Hs; apply ideal_goes_right; auto).
  rewrite !ideal_average; try reflexivity;
    try apply filter_nonvertical_left; try apply filter_nonvertical_right;
    apply Forall_filter_keep; apply Forall_forall; exact Hf.
Qed.

(** *** The order of the segments *)

Lemma filter_perm {A} (f : A -> bool) (l l' : list A) :
  Permutation l l' -> Permutation (filter f l) (filter f l').
Proof.
  induction 1 as [| x l l' _ IH | x y l | l l' l'' _ IH1 _ IH2]; simpl.
  - constructor.
  - destruct (f x); [constructor |]; exact IH.
  - destruct (f x), (f y); try apply Permutation_refl. constructor.
  - eapply Permutation_trans; eassumption.
Qed.

Section SegmentOrder.

Context {F : Type} `{Float64 F}.

Lemma side_mean_absent (cs : list segment) : side_mean cs = None <-> cs = [].
Proof. destruct cs; simpl; split; intros E; try reflexivity; discriminate. Qed.

Lemma perm_nil_iff {A} (l l' : list A) : Permutation l l' -> (l = [] <-> l' = []).
Proof.
  intros Hp. split; intros ->.
  - apply Permutation_nil. exact Hp.
  - apply Permutation_nil. apply Permutation_sym. exact Hp.
Qed.

(** X5: for every float arithmetic, listing the segments in another
    order permutes the four lists the loop builds and leaves unchanged
    which of the two lane models are present; the order can only show in
    the rounding of the two reductions. *)
Theorem order_keeps_sides (lines lines' : list (list segment)) :
  Permutation (concat lines) (concat lines') ->
  (Permutation (left_lines (scan lines)) (left_lines (scan lines')) /\
   Permutation (left_weights (scan lines)) (left_weights (scan lines')) /\
   Permutation (right_lines (scan lines)) (right_lines (scan lines')) /\
   Permutation (right_weights (scan lines)) (right_weights (scan lines'))) /\
  exists left_lane right_lane left_lane' right_lane',
    average_slope_intercept (F:=F) (Some lines) = Ok (left_lane, right_lane) /\
    average_slope_intercept (F:=F) (Some lines') = Ok (left_lane', right_lane') /\
    (left_lane = None <-> left_lane' = None) /\
    (right_lane = None <-> right_lane' = None).
Proof.
  intros Hp.
  pose proof (filter_perm goes_left _ _ Hp) as Hl.
  pose proof (filter_perm goes_right _ _ Hp) as Hr.
  split.
  - rewrite !scan_collected. unfold collected. cbn [left_lines left_weights
      right_lines right_weights accum0 app].
    repeat split; apply Permutation_map; assumption.
  - rewrite !average_slope_intercept_filter, !average_side_mean.
    do 4 eexists. split; [reflexivity |]. split; [reflexivity |].
    rewrite !side_mean_absent. split; apply perm_nil_iff; assumption.
Qed.

End SegmentOrder.

Lemma order_keeps_sides_witness :
  Permutation (concat [[(10, 90, 40, 30)]; [(60, 40, 80, 80)]])
              (concat [[(60, 40, 80, 80)]; [(10, 90, 40, 30)]]) /\
  Permutation (left_weights (scan (F:=float) [[(10, 90, 40, 30)]; [(60, 40, 80, 80)]]))
              (left_weights (scan (F:=float) [[(60, 40, 80, 80)]; [(10, 90, 40, 30)]])).
Proof.
  assert (Hp : Permutation (concat [[(10, 90, 40, 30)]; [(60, 40, 80, 80)]])
                           (concat [[(60, 40, 80, 80)]; [(10, 90, 40, 30)]]))
    by (simpl; apply perm_swap).
  split; [exact Hp |].
  exact (proj1 (proj2 (proj1 (order_keeps_sides (F:=float) _ _ Hp)))).
Defined.

(** *** The side of a segment *)

Lemma slope_sign s :
  vertical s = false ->
  (Spec.slope s < 0 <-> IZR (rise_run s) < 0)%R /\
  (Spec.slope s = 0%R <-> horizontal s = true).
Proof.
  destruct s as [[[x1 y1] x2] y2]. unfold vertical, horizontal, rise_run, Spec.slope.
  intros Hv. apply Z.eqb_neq in Hv.
  assert (Hdx : IZR (x2 - x1) <> 0%R) by (apply not_0_IZR; lia).
  assert (Hsq : (0 < IZR (x2 - x1) * IZR (x2 - x1))%R) by nra.
  assert (Hmul : (IZR (y2 - y1) / IZR (x2 - x1) * (IZR (x2 - x1) * IZR (x2 - x1))
                  = IZR (y2 - y1) * IZR (x2 - x1))%R) by (field; exact Hdx).
  rewrite mult_IZR. split; split.
  - intros Hs. rewrite <- Hmul. nra.
  - intros Hs. rewrite <- Hmul in Hs.
    destruct (Rlt_dec (IZR (y2 - y1) / IZR (x2 - x1)) 0) as [Hlt | Hge]; [exact Hlt | nra].
  - intros Hs. rewrite Hs in Hmul.
    assert (H0 : IZR (y2 - y1) = 0%R) by nra.
    apply Z.eqb_eq. apply eq_IZR_R0 in H0. lia.
  - intros Hh. apply Z.eqb_eq in Hh. subst y2. rewrite Z.sub_diag. field. exact Hdx.
Qed.

Lemma left_candidate_by_sign s :
  Spec.left_candidate s = negb (vertical s) && (rise_run s <? 0).
Proof.
  unfold Spec.left_candidate. destruct (vertical s) eqn:Hv; [reflexivity |].
  destruct (slope_sign s Hv) as [Hs _]. cbn [negb andb].
  destruct (Rlt_dec (Spec.slope s) 0) as [Hlt | Hge], (Z.ltb_spec (rise_run s) 0) as [Hz | Hz];
    try reflexivity.
  - apply Hs in Hlt. apply lt_IZR in Hlt. lia.
  - exfalso. apply Hge, Hs. apply IZR_lt. exact Hz.
Qed.

Lemma right_candidate_by_sign s :
  Spec.right_candidate s = negb (vertical s) && (0 <=? rise_run s).
Proof.
  unfold Spec.right_candidate. destruct (vertical s) eqn:Hv; [reflexivity |].
  destruct (slope_sign s Hv) as [Hs _]. cbn [negb andb].
  destruct (Rge_dec (Spec.slope s) 0) as [Hge | Hlt], (Z.leb_spec 0 (rise_run s)) as [Hz | Hz];
    try reflexivity.
  - exfalso. assert (Spec.slope s < 0)%R by (apply Hs, IZR_lt; exact Hz). lra.
  - exfalso. apply Hlt. apply Rle_ge.
    destruct (Rlt_dec (Spec.slope s) 0) as [Hn | Hn]; [| lra].
    apply Hs in Hn. apply lt_IZR in Hn. lia.
Qed.

(** X7: in exact arithmetic the side of a segment of a frame is decided
    by integers alone: it goes to the left lists when x1 <> x2 and
    (y2 - y1) * (x2 - x1) < 0, to the right lists when x1 <> x2 and
    (y2 - y1) * (x2 - x1) >= 0 (horizontal segments included), and to
    neither when x1 = x2. *)
Theorem side_by_sign (s : segment) :
  in_frame s ->
  goes_left (F:=xreal) s = negb (vertical s) && (rise_run s <? 0) /\
  goes_right (F:=xreal) s = negb (vertical s) && (0 <=? rise_run s).
Proof.
  intros Hf. split.
  - rewrite (ideal_goes_left s Hf). apply left_candidate_by_sign.
  - rewrite (ideal_goes_right s Hf). apply right_candidate_by_sign.
Qed.

Lemma side_by_sign_witness :
  in_frame (10, 90, 40, 30) /\ goes_left (F:=xreal) (10, 90, 40, 30) = true.
Proof.
  assert (Hf : in_frame (10, 90, 40, 30)) by (unfold in_frame; lia).
  split; [exact Hf |].
  exact (proj1 (side_by_sign (10, 90, 40, 30) Hf)).
Defined.

(** *** Weighted sums *)

Lemma sum_weighted_const (f : segment -> R) (m : R) cs :
  (forall s, In s cs -> f s = m) ->
  Spec.sum (map (fun s => Spec.length s * f s)%R cs)
  = (m * Spec.sum (map Spec.length cs))%R.
Proof.
  induction cs as [|c cs IH]; intros Hm; simpl.
  - lra.
  - rewrite IH by (intros s Hs; apply Hm; right; exact Hs).
    rewrite (Hm c) by (left; reflexivity). lra.
Qed.

Lemma sum_weighted_nonneg (f : segment -> R) cs :
  Forall (fun s => vertical s = false) cs ->
  (forall s, In s cs -> 0 <= f s)%R ->
  (0 <= Spec.sum (map (fun s => Spec.length s * f s) cs))%R.
Proof.
  induction cs as [|c cs IH]; intros Hv Hf; simpl; [lra |].
  inversion Hv; subst.
  pose proof (length_pos c H1). pose proof (Hf c (or_introl eq_refl)).
  specialize (IH H2 (fun s Hs => Hf s (or_intror Hs))). nra.
Qed.

Lemma sum_weighted_opp (f : segment -> R) cs :
  (Spec.sum (map (fun s => Spec.length s * (- f s)) cs)
   = - Spec.sum (map (fun s => Spec.length s * f s) cs))%R.
Proof. induction cs as [|c cs IH]; simpl; [lra | rewrite IH; lra]. Qed.

Lemma sum_weighted_neg (f : segment -> R) cs :
  cs <> [] ->
  Forall (fun s => vertical s = false) cs ->
  (forall s, In s cs -> f s < 0)%R ->
  (Spec.sum (map (fun s => Spec.length s * f s) cs) < 0)%R.
Proof.
  intros Hne Hv Hf.
  destruct cs as [|c cs]; [contradiction |]. simpl.
  inversion Hv; subst. pose proof (length_pos c H1). pose proof (Hf c (or_introl eq_refl)).
  assert (Hrest : (0 <= Spec.sum (map (fun s => Spec.length s * (- f s)) cs))%R).
  { apply sum_weighted_nonneg; [exact H2 |].
    intros s Hs. specialize (Hf s (or_intror Hs)). lra. }
  rewrite sum_weighted_opp in Hrest. nra.
Qed.

Lemma sum_weighted_zero (f : segment -> R) cs :
  Forall (fun s => vertical s = false) cs ->
  (forall s, In s cs -> 0 <= f s)%R ->
  Spec.sum (map (fun s => Spec.length s * f s)%R cs) = 0%R ->
  forall s, In s cs -> f s = 0%R.
Proof.
  induction cs as [|c cs IH]; intros Hv Hf Hz s Hs; [contradiction |].
  inversion Hv; subst. simpl in Hz.
  pose proof (length_pos c H1) as Hlen.
  pose proof (Hf c (or_introl eq_refl)) as Hc.
  pose proof (sum_weighted_nonneg f cs H2 (fun s Hs => Hf s (or_intror Hs))) as Hrest.
  assert (Hprod : (0 <= Spec.length c * f c)%R) by nra.
  destruct Hs as [<- | Hs].
  - assert (Spec.length c * f c = 0)%R by lra. nra.
  - apply (IH H2 (fun s Hs => Hf s (or_intror Hs))); [lra | exact Hs].
Qed.

Lemma left_candidate_facts s segs :
  In s (filter Spec.left_candidate segs) ->
  vertical s = false /\ (Spec.slope s < 0)%R.
Proof.
  intros Hs. apply filter_In in Hs as [_ Hs]. unfold Spec.left_candidate in Hs.
  apply andb_true_iff in Hs as [Hv Hl]. apply negb_true_iff in Hv.
  split; [exact Hv |]. destruct (Rlt_dec (Spec.slope s) 0); [assumption | discriminate].
Qed.

Lemma right_candidate_facts s segs :
  In s (filter Spec.right_candidate segs) ->
  vertical s = false /\ (0 <= Spec.slope s)%R.
Proof.
  intros Hs. apply filter_In in Hs as [_ Hs]. unfold Spec.right_candidate in Hs.
  apply andb_true_iff in Hs as [Hv Hl]. apply negb_true_iff in Hv.
  split; [exact Hv |]. destruct (Rge_dec (Spec.slope s) 0); [lra | discriminate].
Qed.

Lemma weighted_mean_some cs m b :
  Spec.weighted_mean cs = Some (m, b) ->
  cs <> [] /\
  m = (Spec.sum (map (fun s => Spec.length s * Spec.slope s) cs)
       / Spec.sum (map Spec.length cs))%R /\
  b = (Spec.sum (map (fun s => Spec.length s * Spec.intercept s) cs)
       / Spec.sum (map Spec.length cs))%R.
Proof.
  destruct cs as [|c cs]; [discriminate |].
  intros E. injection E as <- <-. repeat split. discriminate.
Qed.

(** The slope of the weighted mean of a non-empty left list is negative,
    that of a right list is not. *)
Lemma left_mean_negative segs m b :
  Spec.weighted_mean (filter Spec.left_candidate segs) = Some (m, b) -> (m < 0)%R.
Proof.
  intros E. apply weighted_mean_some in E as (Hne & -> & _).
  pose proof (filter_nonvertical_left segs) as Hv.
  pose proof (sum_lengths_pos _ Hne Hv) as Hpos.
  assert (Hneg : (Spec.sum (map (fun s => Spec.length s * Spec.slope s)
                              (filter Spec.left_candidate segs)) < 0)%R).
  { apply sum_weighted_neg; [exact Hne | exact Hv |].
    intros s Hs. apply (left_candidate_facts s segs Hs). }
  pose proof (Rinv_0_lt_compat _ Hpos) as Hinv.
  unfold Rdiv. nra.
Qed.

Lemma right_mean_nonneg segs m b :
  Spec.weighted_mean (filter Spec.right_candidate segs) = Some (m, b) ->
  (0 <= m)%R /\
  (m = 0%R <-> forall s, In s (filter Spec.right_candidate segs) -> horizontal s = true).
Proof.
  intros E. apply weighted_mean_some in E as (Hne & -> & _).
  pose proof (filter_nonvertical_right segs) as Hv.
  pose proof (right_candidate_facts) as Hfacts.
  pose proof (sum_lengths_pos _ Hne Hv) as Hpos.
  assert (Hnn : (0 <= Spec.sum (map (fun s => Spec.length s * Spec.slope s)
                                  (filter Spec.right_candidate segs)))%R).
  { apply sum_weighted_nonneg; [exact Hv |]. intros s Hs. apply (Hfacts s segs Hs). }
  pose proof (Rinv_0_lt_compat _ Hpos) as Hinv.
  split; [unfold Rdiv; nra |]. split.
  - intros Hz s Hs.
    assert (Hsum : Spec.sum (map (fun s => Spec.length s * Spec.slope s)%R
                               (filter Spec.right_candidate segs)) = 0%R).
    { unfold Rdiv in Hz. nra. }
    apply (slope_sign s (proj1 (Hfacts s segs Hs))).
    apply (sum_weighted_zero Spec.slope _ Hv
             (fun s Hs => proj2 (Hfacts s segs Hs)) Hsum s Hs).
  - intros Hall.
    rewrite (sum_weighted_const Spec.slope 0).
    + unfold Rdiv. lra.
    + intros s Hs. apply (slope_sign s (proj1 (Hfacts s segs Hs))). apply Hall. exact Hs.
Qed.

(** X8: in exact arithmetic the left lane model, when present, has a
    negative slope and the right lane model, when present, a slope that is
    not negative; both are pairs of finite numbers. *)
Theorem lane_slope_signs (lines : list (list segment)) :
  Forall in_frame (concat lines) ->
  exists left_lane right_lane,
    average_slope_intercept (F:=xreal) (Some lines)
    = Ok (exact_lane left_lane, exact_lane right_lane) /\
    (forall m b, left_lane = Some (m, b) -> (m < 0)%R) /\
    (forall m b, right_lane = Some (m, b) -> (0 <= m)%R).
Proof.
  intros Hf. rewrite (ideal_lanes lines Hf). do 2 eexists.
  split; [reflexivity |]. split.
  - intros m b. apply left_mean_negative.
  - intros m b E. apply (right_mean_nonneg _ _ _ E).
Qed.

Lemma lane_slope_signs_witness :
  Forall in_frame (concat [[(10, 90, 40, 30)]; [(60, 40, 80, 80)]]) /\
  exists left_lane right_lane,
    average_slope_intercept (F:=xreal) (Some [[(10, 90, 40, 30)]; [(60, 40, 80, 80)]])
    = Ok (exact_lane left_lane, exact_lane right_lane) /\
    (forall m b, left_lane = Some (m, b) -> (m < 0)%R) /\
    (forall m b, right_lane = Some (m, b) -> (0 <= m)%R).
Proof.
  assert (Hf : Forall in_frame (concat [[(10, 90, 40, 30)]; [(60, 40, 80, 80)]]))
    by (simpl; repeat constructor; lia).
  split; [exact Hf |].
  exact (lane_slope_signs [[(10, 90, 40, 30)]; [(60, 40, 80, 80)]] Hf).
Defined.

(** *** Segments on one line *)

Lemma weighted_mean_common cs m b :
  cs <> [] -> Forall (fun s => vertical s = false) cs ->
  (forall s, In s cs -> Spec.slope s = m /\ Spec.intercept s = b) ->
  Spec.weighted_mean cs = Some (m, b).
Proof.
  intros Hne Hv Hmb.
  pose proof (sum_lengths_pos cs Hne Hv) as Hpos.
  destruct cs as [|c cs]; [contradiction |].
  unfold Spec.weighted_mean.
  rewrite (sum_weighted_const Spec.slope m) by (intros s Hs; apply (Hmb s Hs)).
  rewrite (sum_weighted_const Spec.intercept b) by (intros s Hs; apply (Hmb s Hs)).
  do 2 f_equal; field; lra.
Qed.

(** *** The weighted mean and the floats *)

Lemma not_stands_for_integer (x : float) (n : Z) (d : positive) (k : Z) :
  float_value x = Finite (n # d) -> n <> k * Zpos d -> ~ stands_for x (IZR k).
Proof.
  intros Hx Hn. unfold stands_for. rewrite Hx. unfold Q2R. cbn [Qnum Qden].
  intros E. apply Hn. apply eq_IZR. rewrite mult_IZR, <- E.
  field. apply not_0_IZR. discriminate.
Qed.

Lemma single_left_mean (s : segment) (k i : Z) :
  vertical s = false -> rise_run s < 0 ->
  Spec.slope s = IZR k -> Spec.intercept s = IZR i ->
  Spec.weighted_mean (filter Spec.left_candidate [s]) = Some (IZR k, IZR i).
Proof.
  intros Hv Hr Hk Hi. cbn [filter]. rewrite left_candidate_by_sign, Hv.
  replace (rise_run s <? 0) with true by (symmetry; apply Z.ltb_lt; exact Hr).
  cbn [negb andb]. apply weighted_mean_common.
  - discriminate.
  - constructor; [exact Hv | constructor].
  - intros c [<- | []]. split; assumption.
Qed.

(** C1 as stated fails.  For the single segment (0,13)-(1,12) the weighted
    mean is that segment's own (slope, intercept) = (-1, 13), and the code
    returns the intercept 13.000000000000002: the product of the length
    sqrt 2 by 13 and its quotient by the length are each rounded.  For the
    two left segments (10,90)-(40,30) and (20,70)-(30,50), both on the line
    of slope -2 and intercept 110, the code returns the intercept
    109.99999999999999.  For the segment (0,0)-(40000,30000) the int32
    sum of the squares wraps to a negative number, the weight is NaN and
    so is the lane model. *)
Lemma average_slope_intercept_not_exact_mean :
  ~ returns_weighted_mean [[(0, 13, 1, 12)]] /\
  ~ returns_weighted_mean [[(10, 90, 40, 30)]; [(5, 5, 5, 9)]; [(20, 70, 30, 50)]] /\
  average_slope_intercept (F:=float) (Some [[(0, 13, 1, 12)]])
  = Ok (Some (of_int (-1), 0x1.a000000000001p+3%float), None) /\
  Spec.weighted_mean (filter Spec.left_candidate (concat [[(0, 13, 1, 12)]]))
  = Some ((-1)%R, 13%R) /\
  PrimFloat.is_nan (length_of (F:=float) (0, 0, 40000, 30000)) = true /\
  average_slope_intercept (F:=float) (Some [[(0, 0, 40000, 30000)]])
  = Ok (None, Some (PrimFloat.nan, PrimFloat.nan)).
Proof.
  assert (Hcode : average_slope_intercept (F:=float) (Some [[(0, 13, 1, 12)]])
                  = Ok (Some (of_int (-1), 0x1.a000000000001p+3%float), None))
    by (vm_compute; reflexivity).
  assert (Hmean : Spec.weighted_mean
                    (filter Spec.left_candidate (concat [[(0, 13, 1, 12)]]))
                  = Some ((-1)%R, 13%R)).
  { cbn [concat app].
    apply (single_left_mean (0, 13, 1, 12) (-1) 13); try reflexivity;
      unfold Spec.intercept, Spec.slope; simpl; lra. }
  split; [| split; [| split; [exact Hcode | split; [exact Hmean
                                                   | split; vm_compute; reflexivity]]]].
  - intros (left_lane & right_lane & Havg & Hl & _).
    pose proof (eq_trans (eq_sym Havg) Hcode) as E. injection E as -> ->.
    unfold lane_stands_for in Hl.
    match type of Hl with
    | context [Spec.weighted_mean ?l] =>
        assert (Hm : Spec.weighted_mean l = Some ((-1)%R, 13%R)) by exact Hmean;
        rewrite Hm in Hl
    end. destruct Hl as [_ Hb].
    revert Hb.
    apply (not_stands_for_integer _ 7318349394477057 562949953421312 13).
    + vm_compute. reflexivity.
    + discriminate.
  - intros (left_lane & right_lane & Havg & Hl & _).
    assert (Hcode2 : average_slope_intercept (F:=float)
                       (Some [[(10, 90, 40, 30)]; [(5, 5, 5, 9)]; [(20, 70, 30, 50)]])
                     = Ok (Some (of_int (-2), 0x1.b7fffffffffffp+6%float), None))
      by (vm_compute; reflexivity).
    pose proof (eq_trans (eq_sym Havg) Hcode2) as E. injection E as -> ->.
    unfold lane_stands_for in Hl.
    match type of Hl with
    | context [Spec.weighted_mean ?l] =>
        assert (Hm : Spec.weighted_mean l = Some ((-2)%R, 110%R));
        [| rewrite Hm in Hl]
    end.
    { rewrite (filter_ext _ _ left_candidate_by_sign).
      match goal with
      | |- Spec.weighted_mean ?l = _ =>
          let l' := eval vm_compute in l in change l with l'
      end.
      apply weighted_mean_common.
      - discriminate.
      - repeat constructor.
      - intros c [<- | [<- | []]];
          unfold Spec.intercept, Spec.slope; simpl; split; lra. }
    destruct Hl as [_ Hb]. revert Hb.
    apply (not_stands_for_integer _ 7740561859543039 70368744177664 110).
    + vm_compute. reflexivity.
    + discriminate.
Qed.

(** *** When the conversion to pixels fails *)

Lemma ideal_zero_slope_kind (y1 : R) (y2 : xreal) (intercept : R) :
  pixel_points (F:=xreal) (Fin y1) y2 (Some (Fin 0, Fin intercept)) = Raise OverflowError \/
  pixel_points (F:=xreal) (Fin y1) y2 (Some (Fin 0, Fin intercept)) = Raise ValueError.
Proof.
  unfold pixel_points. cbn [fsub fdiv to_int ideal XR.sub XR.opp XR.add XR.div].
  rewrite is_zero_true. destruct (XR.is_zero (y1 + - intercept)); [right | left]; reflexivity.
Qed.

Lemma ideal_lane_lines (lines : list (list segment)) (nrows : Z) :
  Forall in_frame (concat lines) ->
  lane_lines (F:=xreal) nrows (Some lines)
  = (left_line <- pixel_points (Fin (IZR nrows)) (Fin (IZR nrows * (6 / 10)))
                    (exact_lane (Spec.weighted_mean
                                   (filter Spec.left_candidate (concat lines)))) ;;
     right_line <- pixel_points (Fin (IZR nrows)) (Fin (IZR nrows * (6 / 10)))
                     (exact_lane (Spec.weighted_mean
                                    (filter Spec.right_candidate (concat lines)))) ;;
     Ok (left_line, right_line)).
Proof.
  intros Hf. unfold lane_lines. rewrite (ideal_lanes lines Hf), bind_Ok.
  rewrite ideal_decimal by lia. reflexivity.
Qed.

Lemma right_all_horizontal (segs : list segment) :
  (filter Spec.right_candidate segs <> [] /\
   forall s, In s (filter Spec.right_candidate segs) -> horizontal s = true)
  <-> has_horizontal segs && negb (has_rising segs) = true.
Proof.
  assert (Hzero : forall s, vertical s = false ->
                            (horizontal s = true <-> rise_run s = 0)).
  { intros [[[x1 y1] x2] y2]. unfold vertical, horizontal, rise_run. intros Hv.
    apply Z.eqb_neq in Hv. rewrite Z.eqb_eq. split; intros Hh; [subst; lia | nia]. }
  assert (Hin : forall s, In s (filter Spec.right_candidate segs)
                          <-> In s segs /\ vertical s = false /\ 0 <= rise_run s).
  { intros s. rewrite filter_In, right_candidate_by_sign, andb_true_iff,
      negb_true_iff, Z.leb_le. tauto. }
  unfold has_horizontal, has_rising.
  rewrite andb_true_iff, negb_true_iff, existsb_exists. split.
  - intros [Hne Hall]. split.
    + assert (Hex : exists c, In c (filter Spec.right_candidate segs)).
      { destruct (filter Spec.right_candidate segs) as [|c cs]; [contradiction |].
        exists c. left. reflexivity. }
      destruct Hex as [c Hc].
      exists c. pose proof (Hall c Hc) as Hh. apply Hin in Hc as (Hc & Hv & _).
      split; [exact Hc |]. rewrite Hv, Hh. reflexivity.
    + apply not_true_is_false. intros Hex. apply existsb_exists in Hex as (s & Hs & Hr).
      apply andb_true_iff in Hr as [Hv Hr]. apply negb_true_iff in Hv.
      apply Z.ltb_lt in Hr.
      assert (Hc : In s (filter Spec.right_candidate segs)) by (apply Hin; repeat split; auto; lia).
      apply Hall, (Hzero s Hv) in Hc. lia.
  - intros [(s & Hs & Hh) Hno]. apply andb_true_iff in Hh as [Hv Hh].
    apply negb_true_iff in Hv. split.
    + assert (Hc : In s (filter Spec.right_candidate segs)).
      { apply Hin. repeat split; auto. apply (Hzero s Hv) in Hh. lia. }
      intros E. rewrite E in Hc. contradiction.
    + intros c Hc. apply Hin in Hc as (Hc & Hcv & Hcr).
      apply (Hzero c Hcv).
      destruct (Z.eq_dec (rise_run c) 0) as [E | E]; [exact E |].
      exfalso. assert (Hex : existsb (fun s => negb (vertical s) && (0 <? rise_run s)) segs = true).
      { apply existsb_exists. exists c. split; [exact Hc |].
        rewrite Hcv. apply Z.ltb_lt. lia. }
      congruence.
Qed.

(** X10: in exact arithmetic [__lane_lines] raises on the segments of a
    frame exactly when some segment is horizontal (and not a point) while
    no segment rises to the right, that is when every segment of the right
    side is horizontal; the exception is then the OverflowError or the
    ValueError of [int] on the infinite or undefined quotient.  In every
    other case a pair of lane segments is returned. *)
Theorem lane_lines_raises_iff (lines : list (list segment)) (nrows : Z) :
  Forall in_frame (concat lines) ->
  ((exists e, lane_lines (F:=xreal) nrows (Some lines) = Raise e)
   <-> has_horizontal (concat lines) && negb (has_rising (concat lines)) = true) /\
  (forall e, lane_lines (F:=xreal) nrows (Some lines) = Raise e ->
             e = OverflowError \/ e = ValueError).
Proof.
  intros Hf. rewrite (ideal_lane_lines lines nrows Hf).
  rewrite <- right_all_horizontal.
  set (L := Spec.weighted_mean (filter Spec.left_candidate (concat lines))).
  assert (HL : exists left_line,
             pixel_points (F:=xreal) (Fin (IZR nrows)) (Fin (IZR nrows * (6 / 10)))
               (exact_lane L) = Ok left_line).
  { destruct L as [[m b] |] eqn:EL; [| eexists; reflexivity].
    pose proof (left_mean_negative _ _ _ EL). cbn [exact_lane].
    rewrite ideal_pixel_points by lra. eexists. reflexivity. }
  destruct HL as [left_line ->]. rewrite bind_Ok.
  destruct (Spec.weighted_mean (filter Spec.right_candidate (concat lines)))
    as [[m b] |] eqn:ER.
  - destruct (right_mean_nonneg _ _ _ ER) as [Hm Hzero].
    destruct (weighted_mean_some _ _ _ ER) as (Hne & _ & _).
    cbn [exact_lane]. destruct (Req_dec_T m 0) as [-> | Hnz].
    + destruct (ideal_zero_slope_kind (IZR nrows) (Fin (IZR nrows * (6 / 10))) b)
        as [E | E]; rewrite E; cbn [bind].
      * split; [split; [intros _; split; [exact Hne | apply Hzero; reflexivity]
                       | intros _; eexists; reflexivity] |].
        intros e He. injection He as <-. left. reflexivity.
      * split; [split; [intros _; split; [exact Hne | apply Hzero; reflexivity]
                       | intros _; eexists; reflexivity] |].
        intros e He. injection He as <-. right. reflexivity.
    + rewrite ideal_pixel_points by exact Hnz. cbn [bind].
      split; [split |].
      * intros [e He]. discriminate.
      * intros [_ Hall]. exfalso. apply Hnz, Hzero, Hall.
      * intros e He. discriminate.
  - cbn [exact_lane pixel_points bind].
    split; [split |].
    + intros [e He]. discriminate.
    + intros [Hne _]. exfalso. apply Hne.
      unfold Spec.weighted_mean in ER.
      destruct (filter Spec.right_candidate (concat lines)); [reflexivity | discriminate].
    + intros e He. discriminate.
Qed.

Lemma lane_lines_raises_iff_witness :
  Forall in_frame (concat [[(10, 90, 40, 30)]; [(0, 5, 10, 5)]]) /\
  exists e, lane_lines (F:=xreal) 100 (Some [[(10, 90, 40, 30)]; [(0, 5, 10, 5)]]) = Raise e.
Proof.
  assert (Hf : Forall in_frame (concat [[(10, 90, 40, 30)]; [(0, 5, 10, 5)]]))
    by (simpl; repeat constructor; lia).
  split; [exact Hf |].
  apply (proj1 (lane_lines_raises_iff [[(10, 90, 40, 30)]; [(0, 5, 10, 5)]] 100 Hf)).
  reflexivity.
Defined.

(** *** The ordinates of the lane segments *)

(** X11: whatever the lane models, the lane segments [__lane_lines]
    returns all start at the ordinate [int(rows)] and end at
    [int(rows * 0.6)]: both lanes are drawn between the same two rows.  In
    exact arithmetic these are [rows], one below the last row of the
    image, and the integer quotient [rows * 6 / 10]. *)
Theorem lane_segment_ordinates :
  (forall (F : Type) (A : Float64 F) (nrows : Z) (lines : hough_lines)
          (left_line right_line : lane_segment) (p q : Z * Z),
      lane_lines (F:=F) nrows lines = Ok (left_line, right_line) ->
      left_line = Some (p, q) \/ right_line = Some (p, q) ->
      to_int (of_int nrows) = Ok (snd p) /\
      to_int (fmul (of_int nrows) (decimal (F:=F) 6 10)) = Ok (snd q)) /\
  (forall nrows : Z,
      0 <= nrows ->
      to_int (F:=xreal) (of_int nrows) = Ok nrows /\
      to_int (F:=xreal) (fmul (of_int nrows) (decimal 6 10)) = Ok (nrows * 6 / 10)).
Proof.
  split.
  - intros F A nrows lines left_line right_line p q Hll Hpq.
    unfold lane_lines in Hll.
    destruct (average_slope_intercept lines) as [[l r] |]; [| discriminate].
    rewrite bind_Ok in Hll. cbv zeta in Hll.
    destruct (pixel_points (of_int nrows) (fmul (of_int nrows) (decimal 6 10)) l)
      as [ll |] eqn:El; [| discriminate].
    destruct (pixel_points (of_int nrows) (fmul (of_int nrows) (decimal 6 10)) r)
      as [rl |] eqn:Er; [| discriminate].
    cbn [bind] in Hll. injection Hll as <- <-.
    destruct Hpq as [-> | ->].
    + apply (pixel_points_ordinates _ _ _ _ _ El).
    + apply (pixel_points_ordinates _ _ _ _ _ Er).
  - intros nrows Hn. split.
    + cbn [to_int of_int ideal XR.to_int]. rewrite trunc_IZR. reflexivity.
    + rewrite ideal_decimal by lia. cbn [to_int of_int fmul ideal XR.mul XR.to_int].
      replace (IZR nrows * (6 / 10))%R with (IZR (nrows * 6) / IZR 10)%R
        by (rewrite mult_IZR; field).
      rewrite trunc_quot by lia. reflexivity.
Qed.

Lemma lane_segment_ordinates_witness :
  lane_lines (F:=float) 100 (Some [[(10, 90, 40, 30)]; [(60, 40, 80, 80)]])
  = Ok (Some ((5, 100), (25, 60)), Some ((90, 100), (70, 60))) /\
  to_int (F:=float) (of_int 100) = Ok 100 /\
  to_int (F:=float) (fmul (of_int 100) (decimal 6 10)) = Ok 60.
Proof.
  assert (Hll : lane_lines (F:=float) 100 (Some [[(10, 90, 40, 30)]; [(60, 40, 80, 80)]])
                = Ok (Some ((5, 100), (25, 60)), Some ((90, 100), (70, 60))))
    by (vm_compute; reflexivity).
  split; [exact Hll |].
  exact (proj1 lane_segment_ordinates float binary64 100 _ _ _ (90, 100) (70, 60) Hll
           (or_intror eq_refl)).
Defined.

(** ** The Region Selector, for every arithmetic and every polygon fill *)

Section RegionSelectorAlgebra.

Context {F : Type} `{Float64 F}.

Variable poly_pixels : list (list (Z * Z)) -> Z -> Z -> bool.

(** X13: selecting the region of an already selected image changes
    nothing: the mask of the second pass is the mask of the first. *)
Theorem region_selection_idempotent (img : image) (y x : Z) (ch : nat) :
  pix (region_selection (F:=F) poly_pixels (region_selection (F:=F) poly_pixels img)) y x ch
  = pix (region_selection (F:=F) poly_pixels img) y x ch.
Proof.
  unfold region_selection, bitwise_and, fillPoly, paint, zeros_like, ignore_mask_color.
  cbn [pix rows cols channels].
  destruct (channels img) as [[|[|n]] |]; cbn [squeeze repeat];
    rewrite <- Z.land_assoc, Z.land_diag; reflexivity.
Qed.

(** X14: the Region Selector only removes: a uint8 pixel of an existing
    channel comes out either as it was or as 0, so nothing is brightened
    and a black pixel stays black. *)
Theorem region_selection_only_removes (img : image) (y x : Z) (ch : nat) :
  has_channel img ch ->
  0 <= pix img y x ch < 256 ->
  (pix (region_selection (F:=F) poly_pixels img) y x ch = pix img y x ch \/
   pix (region_selection (F:=F) poly_pixels img) y x ch = 0) /\
  0 <= pix (region_selection (F:=F) poly_pixels img) y x ch <= pix img y x ch.
Proof.
  intros Hch Hp.
  assert (Hcase : pix (region_selection (F:=F) poly_pixels img) y x ch = pix img y x ch \/
                  pix (region_selection (F:=F) poly_pixels img) y x ch = 0).
  { unfold region_selection, bitwise_and, fillPoly, paint, zeros_like. cbn [pix].
    destruct (poly_pixels (vertices (rows img) (cols img)) x y).
    - left. rewrite (ignore_mask_color_component img ch Hch). apply land_255. exact Hp.
    - right. apply Z.land_0_r. }
  split; [exact Hcase |]. destruct Hcase as [-> | ->]; lia.
Qed.

End RegionSelectorAlgebra.

Lemma region_selection_only_removes_witness :
  (has_channel (mkImage 10 15 (Some 3%nat) (fun _ _ _ => 200)) 2 /\ 0 <= 200 < 256) /\
  0 <= pix (region_selection (F:=float) (fun _ x y => x <? y)
              (mkImage 10 15 (Some 3%nat) (fun _ _ _ => 200))) 4 7 2 <= 200.
Proof.
  assert (Hch : has_channel (mkImage 10 15 (Some 3%nat) (fun _ _ _ => 200)) 2)
    by (unfold has_channel; simpl; lia).
  assert (Hp : 0 <= 200 < 256) by lia.
  split; [split; assumption |].
  exact (proj2 (region_selection_only_removes (F:=float) (fun _ x y => x <? y)
                  (mkImage 10 15 (Some 3%nat) (fun _ _ _ => 200)) 4 7 2 Hch Hp)).
Defined.

(** X15: in exact arithmetic the polygon of the Region Selector is a
    trapezoid inside the image: its top and bottom edges are horizontal,
    the top one not below the bottom one, and its abscissas are ordered
    bottom-left, top-left, top-right, bottom-right within [0, W]. *)
Theorem trapezoid_inside_image (h w : Z) :
  0 <= h < 2 ^ 31 -> 0 <= w < 2 ^ 31 ->
  exists blx tlx trx brx top bottom,
    vertices (F:=xreal) h w = [[(blx, bottom); (tlx, top); (trx, top); (brx, bottom)]] /\
    0 <= blx <= tlx /\ tlx <= trx <= brx /\ brx <= w /\
    0 <= top <= bottom /\ bottom <= h.
Proof.
  intros Hh Hw. rewrite (ideal_vertices h w Hh Hw). unfold truncated_trapezoid.
  do 6 eexists. split; [reflexivity |].
  assert (Hmono : forall a b, a <= b -> a / 10 <= b / 10)
    by (intros; apply Z.div_le_mono; lia).
  assert (Hmono' : forall a b, a <= b -> a / 100 <= b / 100)
    by (intros; apply Z.div_le_mono; lia).
  assert (0 <= w * 1 / 10) by (apply Z.div_pos; lia).
  assert (0 <= h * 6 / 10) by (apply Z.div_pos; lia).
  assert (w * 9 / 10 <= w) by (apply Z.div_le_upper_bound; lia).
  assert (h * 95 / 100 <= h) by (apply Z.div_le_upper_bound; lia).
  assert (h * 6 / 10 <= h * 95 / 100).
  { replace (h * 6 / 10) with (h * 60 / 100).
    - apply Hmono'. lia.
    - replace (h * 60) with (h * 6 * 10) by lia. replace 100 with (10 * 10) by lia.
      apply Z.div_mul_cancel_r; lia. }
  pose proof (Hmono (w * 1) (w * 4) ltac:(lia)).
  pose proof (Hmono (w * 4) (w * 6) ltac:(lia)).
  pose proof (Hmono (w * 6) (w * 9) ltac:(lia)).
  lia.
Qed.

Lemma trapezoid_inside_image_witness :
  (0 <= 480 < 2 ^ 31 /\ 0 <= 640 < 2 ^ 31) /\
  exists blx tlx trx brx top bottom,
    vertices (F:=xreal) 480 640 = [[(blx, bottom); (tlx, top); (trx, top); (brx, bottom)]] /\
    0 <= blx <= tlx /\ tlx <= trx <= brx /\ brx <= 640 /\
    0 <= top <= bottom /\ bottom <= 480.
Proof.
  split; [lia |].
  exact (trapezoid_inside_image 480 640 ltac:(lia) ltac:(lia)).
Defined.

(** ** The Line Renderer, for every stroke *)

Section LineRendererAlgebra.

Variable stroke_pixels : Z * Z -> Z * Z -> Z -> Z -> Z -> bool.

Lemma component_uint8 (c : color) (ch : nat) :
  uint8_color c -> 0 <= component c ch <= 255.
Proof.
  intros [_ Hc]. unfold component. revert ch.
  induction Hc as [|v c Hv _ IH]; intros ch.
  - destruct ch; simpl; lia.
  - destruct ch as [|ch]; simpl; [exact Hv | apply IH].
Qed.

(** X16: on a call that [cv2.line] accepts (coordinates of the present
    segments within a C int, thickness between 1 and 32767, a colour of
    at most four components between 0 and 255) and a non-empty frame,
    2-D or of 2 to 4 channels, [__draw_lane_lines] returns an image of
    the shape of the frame with values between 0 and 255; a uint8 pixel
    that no stroke covers is the pixel of the frame, and no uint8 pixel
    gets darker. *)
Theorem draw_lane_lines_local (img : image) (lines : lane_segment * lane_segment)
  (c : option color) (thickness y x : Z) (ch : nat) :
  0 < rows img -> 0 < cols img ->
  supported_channels img ->
  drawable (fst lines) -> drawable (snd lines) ->
  0 < thickness <= 32767 ->
  uint8_color (match c with None => [255; 0; 0] | Some c => c end) ->
  let out := draw_lane_lines stroke_pixels img lines c thickness in
  (rows out = rows img /\ cols out = cols img /\ channels out = channels img) /\
  0 <= pix out y x ch <= 255 /\
  (0 <= pix img y x ch < 256 ->
   covered stroke_pixels lines thickness x y = false ->
   pix out y x ch = pix img y x ch) /\
  (0 <= pix img y x ch < 256 -> pix img y x ch <= pix out y x ch).
Proof.
  intros _ _ _ _ _ _ Hc out. subst out. split; [repeat split |].
  pose proof (component_uint8 _ ch Hc) as Hcomp.
  rewrite draw_lane_lines_pixel. unfold saturate_u8.
  split; [lia |]. split.
  - intros Hp Hcov. rewrite Hcov. lia.
  - intros Hp. destruct (covered stroke_pixels lines thickness x y); lia.
Qed.

(** X17: the two lane segments are interchangeable: handing them to
    [__draw_lane_lines] in the other order gives the same picture. *)
Theorem draw_lane_lines_symmetric (img : image) (left_line right_line : lane_segment)
  (c : option color) (thickness y x : Z) (ch : nat) :
  pix (draw_lane_lines stroke_pixels img (left_line, right_line) c thickness) y x ch
  = pix (draw_lane_lines stroke_pixels img (right_line, left_line) c thickness) y x ch.
Proof.
  rewrite !draw_lane_lines_pixel. do 2 f_equal.
  assert (Hc : covered stroke_pixels (left_line, right_line) thickness x y
               = covered stroke_pixels (right_line, left_line) thickness x y).
  { unfold covered. cbn [fst snd].
    destruct left_line as [[p q] |], right_line as [[p' q'] |]; try reflexivity.
    apply orb_comm. }
  rewrite Hc. reflexivity.
Qed.

End LineRendererAlgebra.

Lemma draw_lane_lines_local_witness :
  (supported_channels (mkImage 100 100 (Some 3%nat) (fun _ _ _ => 7)) /\
   drawable (Some ((5, 100), (25, 60))) /\ drawable None /\ 0 < 12 <= 32767 /\
   uint8_color [255; 0; 0]) /\
  pix (draw_lane_lines (fun p q _ x y => (x =? fst p) && (y =? snd p))
         (mkImage 100 100 (Some 3%nat) (fun _ _ _ => 7))
         (Some ((5, 100), (25, 60)), None) None default_thickness) 0 0 1 = 7.
Proof.
  assert (Hd : drawable (Some ((5, 100), (25, 60)))) by (unfold drawable, c_int; lia).
  assert (Hc : uint8_color [255; 0; 0])
    by (split; [simpl; lia | repeat constructor; lia]).
  assert (Hs : supported_channels (mkImage 100 100 (Some 3%nat) (fun _ _ _ => 7)))
    by (unfold supported_channels; simpl; lia).
  split; [split; [exact Hs | split; [exact Hd | split; [exact I | split; [lia | exact Hc]]]] |].
  refine (proj1 (proj2 (proj2
    (draw_lane_lines_local (fun p q _ x y => (x =? fst p) && (y =? snd p))
       (mkImage 100 100 (Some 3%nat) (fun _ _ _ => 7))
       (Some ((5, 100), (25, 60)), None) None default_thickness 0 0 1
       ltac:(simpl; lia) ltac:(simpl; lia) Hs
       Hd I ltac:(unfold default_thickness; lia) Hc))) _ eq_refl).
  simpl. lia.
Defined.

(** ** The pipeline *)

Lemma b64_to_int_raises (x : float) (e : exn) :
  to_int (F:=float) x = Raise e -> e = OverflowError \/ e = ValueError.
Proof.
  cbn [to_int binary64]. unfold B64.to_int.
  destruct (Prim2SF x); intros E; try discriminate; injection E as <-; auto.
Qed.

Lemma ideal_to_int_raises (x : xreal) (e : exn) :
  to_int (F:=xreal) x = Raise e -> e = OverflowError \/ e = ValueError.
Proof.
  cbn [to_int ideal]. unfold XR.to_int.
  destruct x; intros E; try discriminate; injection E as <-; auto.
Qed.

Section LaneLinesExceptions.

Context {F : Type} `{Float64 F}.

Lemma pixel_points_raises (y1 y2 : F) (line : lane) (e : exn) :
  (forall x e, to_int (F:=F) x = Raise e -> e = OverflowError \/ e = ValueError) ->
  pixel_points y1 y2 line = Raise e -> e = OverflowError \/ e = ValueError.
Proof.
  intros Hint. unfold pixel_points. destruct line as [[slope intercept] |]; [| discriminate].
  destruct (to_int (fdiv (fsub y1 intercept) slope)) as [a |] eqn:E1;
    [| cbn [bind]; intros E; injection E as <-; exact (Hint _ _ E1)].
  destruct (to_int (fdiv (fsub y2 intercept) slope)) as [b |] eqn:E2;
    [| cbn [bind]; intros E; injection E as <-; exact (Hint _ _ E2)].
  destruct (to_int y1) as [c |] eqn:E3;
    [| cbn [bind]; intros E; injection E as <-; exact (Hint _ _ E3)].
  destruct (to_int y2) as [d |] eqn:E4;
    [| cbn [bind]; intros E; injection E as <-; exact (Hint _ _ E4)].
  cbn [bind]. discriminate.
Qed.

(** X20: [__lane_lines] raises TypeError exactly when it is given [None]
    for the Hough output; anything else it raises comes from [int] in
    [__pixel_points], which in binary64 and in exact arithmetic is
    OverflowError or ValueError and nothing else. *)
Theorem lane_lines_exceptions (nrows : Z) (lines : hough_lines) (e : exn) :
  (forall x e, to_int (F:=F) x = Raise e -> e = OverflowError \/ e = ValueError) ->
  lane_lines (F:=F) nrows lines = Raise e ->
  (e = TypeError <-> lines = None) /\
  (e = TypeError \/ e = OverflowError \/ e = ValueError).
Proof.
  intros Hint. unfold lane_lines.
  destruct lines as [lines |].
  - rewrite average_slope_intercept_filter, bind_Ok. cbv zeta.
    set (y1 := of_int nrows). set (y2 := fmul y1 (decimal 6 10)).
    intros E.
    assert (Hk : e = OverflowError \/ e = ValueError).
    { destruct (pixel_points y1 y2 _) as [ll |] eqn:El in E.
      - destruct (pixel_points y1 y2 _) as [rl |] eqn:Er in E.
        + cbn [bind] in E. discriminate.
        + cbn [bind] in E. injection E as <-. exact (pixel_points_raises _ _ _ _ Hint Er).
      - cbn [bind] in E. injection E as <-. exact (pixel_points_raises _ _ _ _ Hint El). }
    split; [| tauto].
    split; [| discriminate]. intros ->. destruct Hk; discriminate.
  - cbn [average_slope_intercept bind]. intros E. injection E as <-.
    split; [split; reflexivity | left; reflexivity].
Qed.

End LaneLinesExceptions.

Section PipelineFacts.

Context {F : Type} `{Float64 F}.

Variable cvtColor_BGR2GRAY : image -> image.
Variable GaussianBlur : image -> Z * Z -> Z -> image.
Variable Canny : image -> Z -> Z -> image.
Variable HoughLinesP : image -> hough_args -> hough_lines.
Variable poly_pixels : list (list (Z * Z)) -> Z -> Z -> bool.
Variable stroke_pixels : Z * Z -> Z * Z -> Z -> Z -> Z -> bool.

#[local] Abbreviation found img :=
  (detected (F:=F) cvtColor_BGR2GRAY GaussianBlur Canny HoughLinesP poly_pixels img).

Lemma frame_processor_unfold (img : image) :
  frame_processor (F:=F) cvtColor_BGR2GRAY GaussianBlur Canny HoughLinesP
    poly_pixels stroke_pixels img
  = (lines <- lane_lines (F:=F) (rows img) (found img) ;;
     Ok (draw_lane_lines stroke_pixels img lines None default_thickness)).
Proof. reflexivity. Qed.

(** X18: when [frame_processor] returns, the image it returns has the
    shape of the frame (rows, columns and channels), with values between
    0 and 255. *)
Theorem frame_processor_shape (img out : image) :
  frame_processor (F:=F) cvtColor_BGR2GRAY GaussianBlur Canny HoughLinesP
    poly_pixels stroke_pixels img = Ok out ->
  rows out = rows img /\ cols out = cols img /\ channels out = channels img /\
  forall y x ch, 0 <= pix out y x ch <= 255.
Proof.
  rewrite frame_processor_unfold.
  destruct (lane_lines (rows img) (found img)) as [lines |]; [| discriminate].
  cbn [bind]. intros E. injection E as <-.
  split; [reflexivity |]. split; [reflexivity |]. split; [reflexivity |].
  intros y x ch. rewrite draw_lane_lines_pixel. unfold saturate_u8. lia.
Qed.

(** X19: a frame in which the Hough transform finds an empty collection,
    or vertical segments only, passes through [frame_processor] unchanged:
    nothing is raised and every uint8 pixel keeps its value. *)
Theorem frame_processor_passthrough (img : image) (lines : list (list segment)) :
  found img = Some lines ->
  forallb vertical (concat lines) = true ->
  exists out,
    frame_processor (F:=F) cvtColor_BGR2GRAY GaussianBlur Canny HoughLinesP
      poly_pixels stroke_pixels img = Ok out /\
    forall y x ch, 0 <= pix img y x ch < 256 -> pix out y x ch = pix img y x ch.
Proof.
  intros Hd Hv. rewrite frame_processor_unfold, Hd.
  destruct (no_candidate (concat lines) Hv) as [Hl Hr].
  unfold lane_lines. rewrite average_slope_intercept_filter, Hl, Hr. cbn [bind].
  eexists. split; [reflexivity |].
  intros y x ch Hp. apply draw_lane_lines_absent. exact Hp.
Qed.

End PipelineFacts.

Lemma frame_processor_shape_witness :
  frame_processor (F:=float) (fun img => img) (fun img _ _ => img) (fun img _ _ => img)
    (fun _ _ => Some [[(10, 90, 40, 30)]]) (fun _ _ _ => false) (fun _ _ _ _ _ => false)
    (mkImage 100 100 (Some 3%nat) (fun _ _ _ => 7))
  = Ok (draw_lane_lines (fun _ _ _ _ _ => false)
          (mkImage 100 100 (Some 3%nat) (fun _ _ _ => 7))
          (Some ((5, 100), (25, 60)), None) None default_thickness) /\
  rows (draw_lane_lines (fun _ _ _ _ _ => false)
          (mkImage 100 100 (Some 3%nat) (fun _ _ _ => 7))
          (Some ((5, 100), (25, 60)), None) None default_thickness) = 100.
Proof.
  assert (Hfp : frame_processor (F:=float) (fun img => img) (fun img _ _ => img)
                  (fun img _ _ => img) (fun _ _ => Some [[(10, 90, 40, 30)]])
                  (fun _ _ _ => false) (fun _ _ _ _ _ => false)
                  (mkImage 100 100 (Some 3%nat) (fun _ _ _ => 7))
                = Ok (draw_lane_lines (fun _ _ _ _ _ => false)
                        (mkImage 100 100 (Some 3%nat) (fun _ _ _ => 7))
                        (Some ((5, 100), (25, 60)), None) None default_thickness)).
  { rewrite frame_processor_unfold. unfold detected, hough_transform.
    replace (lane_lines (F:=float) (rows (mkImage 100 100 (Some 3%nat) (fun _ _ _ => 7)))
               (Some [[(10, 90, 40, 30)]]))
      with (@Ok (lane_segment * lane_segment) (Some ((5, 100), (25, 60)), None))
      by (vm_compute; reflexivity).
    reflexivity. }
  split; [exact Hfp |].
  exact (proj1 (frame_processor_shape (F:=float) _ _ _ _ _ _ _ _ Hfp)).
Defined.

Lemma frame_processor_passthrough_witness :
  (detected (F:=float) (fun img => img) (fun img _ _ => img) (fun img _ _ => img)
     (fun _ _ => Some [[(5, 5, 5, 9)]]) (fun _ _ _ => false)
     (mkImage 100 100 (Some 3%nat) (fun _ _ _ => 7)) = Some [[(5, 5, 5, 9)]] /\
   forallb vertical (concat [[(5, 5, 5, 9)]]) = true) /\
  exists out,
    frame_processor (F:=float) (fun img => img) (fun img _ _ => img) (fun img _ _ => img)
      (fun _ _ => Some [[(5, 5, 5, 9)]]) (fun _ _ _ => false) (fun _ _ _ _ _ => true)
      (mkImage 100 100 (Some 3%nat) (fun _ _ _ => 7)) = Ok out /\
    forall y x ch,
      0 <= pix (mkImage 100 100 (Some 3%nat) (fun _ _ _ => 7)) y x ch < 256 ->
      pix out y x ch = pix (mkImage 100 100 (Some 3%nat) (fun _ _ _ => 7)) y x ch.
Proof.
  split; [split; reflexivity |].
  exact (frame_processor_passthrough (F:=float) (fun img => img) (fun img _ _ => img)
           (fun img _ _ => img) (fun _ _ => Some [[(5, 5, 5, 9)]]) (fun _ _ _ => false)
           (fun _ _ _ _ _ => true) (mkImage 100 100 (Some 3%nat) (fun _ _ _ => 7))
           [[(5, 5, 5, 9)]] eq_refl eq_refl).
Defined.

Lemma lane_lines_exceptions_witness :
  lane_lines (F:=float) 100 (Some [[(0, 5, 10, 5)]]) = Raise OverflowError /\
  (OverflowError = TypeError \/ OverflowError = OverflowError \/ OverflowError = ValueError).
Proof.
  assert (Hll : lane_lines (F:=float) 100 (Some [[(0, 5, 10, 5)]]) = Raise OverflowError)
    by (vm_compute; reflexivity).
  split; [exact Hll |].
  exact (proj2 (lane_lines_exceptions (F:=float) 100 _ _ b64_to_int_raises Hll)).
Defined.
